(** * Active-effect manager: a shallow embedding of the effect handler and
    of the status-effect part of the module API.

    The development follows the TypeScript sources:
    - [Api]     : the status-effect name list of the API object
                  (addStatusEffect, removeStatusEffect, resetStatusEffects,
                  isStatusEffect);
    - [Js]      : the untyped values the methods pass around;
    - [Handler] : the actor and token operations of [EffectHandler]
                  (effect-handler.ts), over an explicit model of the host's
                  document store, and the methods that differ in the
                  second copy of the handler;
    - [Legacy]  : the positional-array variants ([...Arr]) of the handler
                  and of the API object;
    - [HandlerSpec], [Samples] : the predicates the statements use and
                  small worlds to run the methods on;
    - [ApiFacts], [HandlerFacts], [LegacyFacts] : the properties;
    - [ApiMoreFacts], [HandlerMoreFacts], [LegacyMoreFacts] : further
                  properties: edge cases, round trips, what the methods
                  leave alone.

    Asynchronous methods are modelled by their sequential meaning: every
    [await] in the sources is immediately followed by the use of its
    result, and the host is taken to run one operation at a time. *)

From stdpp Require Import gmap strings list.
From Stdlib Require Import Ascii String DecimalString.

Set Warnings "-register-all".

Local Open Scope string_scope.
Local Open Scope list_scope.

(** ** The status-effect name list of the API object *)

Module Api.

(** The host's settings storage, restricted to the one key the API
    uses: [game.settings.get/set(MODULE_NAME, 'statusEffectNames')]. *)
Record Settings := mkSettings { statusEffectNamesSetting : list string }.

Definition settingsGet (g : Settings) : list string :=
  statusEffectNamesSetting g.

Definition settingsSet (v : list string) (_ : Settings) : Settings :=
  mkSettings v.

(** [get _defaultStatusEffectNames() { return []; }] *)
Definition _defaultStatusEffectNames : list string := [].

(** [get statusEffectNames()] *)
Definition statusEffectNames (g : Settings) : list string := settingsGet g.

(** [Set.prototype.add]: a JavaScript [Set] iterates in insertion order
    and ignores a value it already holds. *)
Definition setAdd (seen : list string) (x : string) : list string :=
  if decide (x ∈ seen) then seen else seen ++ [x].

(** [[...new Set(arr)]]: the constructor adds the elements of [arr] one
    after the other, the spread reads them back in insertion order. *)
Definition newSet (arr : list string) : list string :=
  fold_left setAdd arr [].

(** [addStatusEffect(name)]: push, remove duplicates, store. *)
Definition addStatusEffect (name : string) (g : Settings) : Settings :=
  let statusEffectsArray := statusEffectNames g ++ [name] in
  let statusEffectsArray := newSet statusEffectsArray in
  settingsSet statusEffectsArray g.

(** [removeStatusEffect(name)]: [filter((s) => s !== name)], store. *)
Definition removeStatusEffect (name : string) (g : Settings) : Settings :=
  let statusEffectsArray :=
    filter (λ statusEffect, statusEffect ≠ name) (statusEffectNames g) in
  settingsSet statusEffectsArray g.

(** [resetStatusEffects()] *)
Definition resetStatusEffects (g : Settings) : Settings :=
  settingsSet _defaultStatusEffectNames g.

(** [isStatusEffect(name)]: [Array.prototype.includes]. *)
Definition isStatusEffect (name : string) (g : Settings) : bool :=
  bool_decide (name ∈ statusEffectNames g).

(** Keeping the first occurrence of every element, written by
    recursion on the list; [newSet] computes it. *)
Fixpoint keepFirst (l : list string) : list string :=
  match l with
  | [] => []
  | x :: r => x :: filter (λ y, y ≠ x) (keepFirst r)
  end.

(** [precedes x y l]: both [x] and [y] occur in [l] and the first
    occurrence of [x] comes before the first occurrence of [y]. *)
Fixpoint precedes (x y : string) (l : list string) : Prop :=
  match l with
  | [] => False
  | a :: r =>
      if decide (a = y) then False
      else if decide (a = x) then y ∈ r
      else precedes x y r
  end.

End Api.


(** ** JavaScript values *)

Module Js.

(** The values the handler passes around untyped ([any]): effect
    objects and effect data are plain property bags. *)
Inductive JsVal :=
| VUndefined
| VNull
| VBool (b : bool)
| VString (s : string)
| VArray (items : list JsVal)
| VObject (props : list (string * JsVal)).

Definition JsObj := list (string * JsVal).

(** Truthiness of a string: only the empty string is falsy. *)
Definition truthyS (s : string) : bool := negb (String.eqb s "").

(** Truthiness of [string | undefined | null]. *)
Definition truthyO (o : option string) : bool :=
  match o with Some s => truthyS s | None => false end.

Definition truthy (v : JsVal) : bool :=
  match v with
  | VUndefined | VNull => false
  | VBool b => b
  | VString s => truthyS s
  | VArray _ | VObject _ => true
  end.

(** [o.k] *)
Fixpoint getProp (k : string) (o : JsObj) : JsVal :=
  match o with
  | [] => VUndefined
  | (k', v) :: r => if String.eqb k k' then v else getProp k r
  end.

(** [o.k = v]: an existing property keeps its place, a new one goes
    last. *)
Fixpoint setProp (k : string) (v : JsVal) (o : JsObj) : JsObj :=
  match o with
  | [] => [(k, v)]
  | (k', v') :: r =>
      if String.eqb k k' then (k, v) :: r else (k', v') :: setProp k v r
  end.

(** [v.k] on a value that is known to be an object or missing. *)
Definition getField (k : string) (v : JsVal) : JsVal :=
  match v with VObject o => getProp k o | _ => VUndefined end.

Definition asString (v : JsVal) : option string :=
  match v with VString s => Some s | _ => None end.

(** [String(x)] of an optional string, as a template literal prints
    it. *)
Definition showO (o : option string) : string :=
  match o with Some s => s | None => "undefined" end.

(** [Array.isArray] *)
Definition isArray (v : JsVal) : bool :=
  match v with VArray _ => true | _ => false end.

(** Array destructuring [const [a, b, ...] = arr]: a missing position
    reads [undefined]. *)
Definition item (i : nat) (arr : list JsVal) : JsVal :=
  nth i arr VUndefined.

End Js.

(** ** The host's documents and the effect handler *)

Module Handler.
Import Js.

(** [ActiveEffect.data], restricted to the fields the handler reads. *)
Record ActiveEffectData := mkData {
  d_label : option string;
  d_disabled : bool;
  d_origin : option string;
  d_statusId : option string  (* flags.core.statusId *)
}.

(** An embedded [ActiveEffect] document. [ae_id] is both [doc.id] and
    [doc.data._id]: the host defines the former as a getter of the
    latter. [ae_name] is what [doc.name] reads. *)
Record ActiveEffect := mkEffect {
  ae_id : string;
  ae_name : option string;
  ae_data : ActiveEffectData
}.

(** An actor with its embedded effects, in the collection's iteration
    order. *)
Record Actor := mkActor {
  actor_id : string;
  actor_name : string;
  actor_effects : list ActiveEffect
}.

(** A token; [token_actor] is the key, in the world's actors, of the
    actor the token stands for, when it has one. *)
Record Token := mkToken {
  token_id : string;
  token_name : string;
  token_actor : option string;
  token_scene : option string
}.

(** The calls the handler makes to the host's document API. The first
    argument is the key of the actor that owns the documents. *)
Inductive HostCall :=
| CreateEmbedded (actor : string) (data : JsObj)
| DeleteEmbedded (actor : string) (ids : list string)
| UpdateEmbedded (actor : string) (data : JsObj)
| DocDelete (actor : string) (id : string)
| DocUpdate (actor : string) (id : string) (disabled : bool).

(** The host: documents by uuid, the counter the host draws fresh ids
    from, the host's decision on each call (a hook or a permission
    check may refuse an operation, which then returns nothing), and the
    calls made so far. *)
Record World := mkWorld {
  actors : gmap string Actor;
  tokens : gmap string Token;
  canvasScene : option string;
  nextId : nat;
  permits : HostCall -> bool;
  calls : list HostCall
}.

Inductive JsError :=
| TypeError
| ErrorM (msg : string).

Inductive Outcome (A : Type) :=
| Ret (a : A)
| Throw (e : JsError).
Arguments Ret {A} a.
Arguments Throw {A} e.

(** Handler methods: state passing over the host, with exceptions. *)
Definition M (A : Type) : Type := World -> World * Outcome A.

Definition ret {A} (a : A) : M A := fun w => (w, Ret a).
Definition throw {A} (e : JsError) : M A := fun w => (w, Throw e).
Definition bind {A B} (m : M A) (k : A -> M B) : M B :=
  fun w =>
    match m w with
    | (w', Ret a) => k a w'
    | (w', Throw e) => (w', Throw e)
    end.

#[global] Instance M_ret : MRet M := @ret.
#[global] Instance M_bind : MBind M := fun A B k m => bind m k.
#[global] Instance M_fmap : FMap M :=
  fun A B f m => bind m (fun a => ret (f a)).

(** Dereferencing a value that may be [undefined]. *)
Definition deref {A} (o : option A) : M A :=
  match o with Some a => mret a | None => throw TypeError end.

(** [foundryHelpers.getActorByUuid], [getTokenByUuid] *)
Definition getActorByUuid (uuid : string) : M (option Actor) :=
  fun w => (w, Ret (actors w !! uuid)).
Definition getTokenByUuid (uuid : string) : M (option Token) :=
  fun w => (w, Ret (tokens w !! uuid)).

(** *** The host's document API

    The host engine is outside the repository. Its operations are
    modelled by what the handler relies on: a call is recorded, and, when
    the host carries it out, it changes the owning actor's collection and
    returns the documents concerned; a refused call changes nothing and
    returns nothing. *)

Definition setEffects (a : Actor) (l : list ActiveEffect) : Actor :=
  mkActor (actor_id a) (actor_name a) l.

Definition setDisabled (b : bool) (e : ActiveEffect) : ActiveEffect :=
  mkEffect (ae_id e) (ae_name e)
    (mkData (d_label (ae_data e)) b (d_origin (ae_data e))
       (d_statusId (ae_data e))).

Definition logCall (c : HostCall) (w : World) : World :=
  mkWorld (actors w) (tokens w) (canvasScene w) (nextId w) (permits w)
    (calls w ++ [c]).

Definition putEffects (key : string) (l : list ActiveEffect) (w : World)
  : World :=
  mkWorld (alter (fun a => setEffects a l) key (actors w)) (tokens w)
    (canvasScene w) (nextId w) (permits w) (calls w).

Definition bumpId (w : World) : World :=
  mkWorld (actors w) (tokens w) (canvasScene w) (S (nextId w)) (permits w)
    (calls w).

Definition effectsOf (key : string) (w : World) : list ActiveEffect :=
  match actors w !! key with Some a => actor_effects a | None => [] end.

Definition mkId (n : nat) : string :=
  "ae" +:+ NilEmpty.string_of_uint (Nat.to_uint n).

(** The document the host builds from creation data. Documents of this
    type carry their display name in [data.label]; they have no [name]
    of their own. *)
Definition docOfData (id : string) (data : JsObj) : ActiveEffect :=
  mkEffect id None
    (mkData (asString (getProp "label" data))
       (truthy (getProp "disabled" data))
       (asString (getProp "origin" data))
       (asString
          (getField "statusId" (getField "core" (getProp "flags" data))))).

(** The changes an update carries over to a document. *)
Definition applyUpdate (data : JsObj) (e : ActiveEffect) : ActiveEffect :=
  mkEffect (ae_id e) (ae_name e)
    (mkData
       (match getProp "label" data with
        | VString s => Some s
        | _ => d_label (ae_data e)
        end)
       (match getProp "disabled" data with
        | VBool b => b
        | _ => d_disabled (ae_data e)
        end)
       (match getProp "origin" data with
        | VString s => Some s
        | _ => d_origin (ae_data e)
        end)
       (d_statusId (ae_data e))).

Definition hasId (id : string) (e : ActiveEffect) : bool :=
  bool_decide (ae_id e = id).

(** [actor.createEmbeddedDocuments('ActiveEffect', [data])] *)
Definition createEmbeddedDocuments (key : string) (data : JsObj)
  : M (list ActiveEffect) :=
  fun w =>
    let c := CreateEmbedded key data in
    let w1 := logCall c w in
    if permits w c then
      let doc := docOfData (mkId (nextId w)) data in
      (putEffects key (effectsOf key w ++ [doc]) (bumpId w1), Ret [doc])
    else (w1, Ret []).

(** [actor.deleteEmbeddedDocuments('ActiveEffect', ids)] *)
Definition deleteEmbeddedDocuments (key : string) (ids : list string)
  : M (list ActiveEffect) :=
  fun w =>
    let c := DeleteEmbedded key ids in
    let w1 := logCall c w in
    if permits w c then
      let removed :=
        omap (fun i => List.find (hasId i) (effectsOf key w)) ids in
      (putEffects key
         (List.filter (fun e => negb (bool_decide (ae_id e ∈ ids)))
            (effectsOf key w)) w1,
       Ret removed)
    else (w1, Ret []).

(** [actor.updateEmbeddedDocuments('ActiveEffect', [data])] *)
Definition updateEmbeddedDocuments (key : string) (data : JsObj)
  : M (list ActiveEffect) :=
  fun w =>
    let c := UpdateEmbedded key data in
    let w1 := logCall c w in
    if permits w c then
      let touched e :=
        bool_decide (Some (ae_id e) = asString (getProp "_id" data)) in
      (putEffects key
         (map (fun e => if touched e then applyUpdate data e else e)
            (effectsOf key w)) w1,
       Ret (map (applyUpdate data) (List.filter touched (effectsOf key w))))
    else (w1, Ret []).

(** [activeEffect.delete()], on a document embedded in actor [key] *)
Definition docDelete (key : string) (e : ActiveEffect)
  : M (option ActiveEffect) :=
  fun w =>
    let c := DocDelete key (ae_id e) in
    let w1 := logCall c w in
    if permits w c then
      (putEffects key
         (List.filter (fun e' => negb (hasId (ae_id e) e'))
            (effectsOf key w)) w1,
       Ret (Some e))
    else (w1, Ret None).

(** [activeEffect.update({ disabled: b })] *)
Definition docUpdate (key : string) (e : ActiveEffect) (b : bool)
  : M (option ActiveEffect) :=
  fun w =>
    let c := DocUpdate key (ae_id e) b in
    let w1 := logCall c w in
    if permits w c then
      (putEffects key
         (map (fun e' => if hasId (ae_id e) e' then setDisabled b e' else e')
            (effectsOf key w)) w1,
       Ret (Some (setDisabled b e)))
    else (w1, Ret None).

(** [!!x] of a document or [undefined] *)
Definition notNot {A} (o : option A) : bool :=
  match o with Some _ => true | None => false end.

(** *** Helpers of the repository that the handler imports

    [isStringEquals] and [i18n] (lib), [EffectSupport] and the [Effect]
    class are not among the sources; the handler is defined over any
    implementation of them. *)
Class Helpers := mkHelpers {
  isStringEquals : option string -> string -> bool;
  i18n : string -> string;
  convertToActiveEffectData : JsObj -> JsObj;
  convertActiveEffectToEffect : ActiveEffect -> JsObj;
  newEffect : JsObj -> JsObj;
  _handleIntegrations : JsObj -> JsObj
}.

(** *** The methods of [EffectHandler] (effect-handler.ts) *)

Section Methods.
Context {helpers : Helpers}.

(** [if (effectName) { effectName = i18n(effectName); }] *)
Definition localize (effectName : string) : string :=
  if truthyS effectName then i18n effectName else effectName.

Definition localizeO (effectName : option string) : option string :=
  localize <$> effectName.

(** [effectEntity.name ? effectEntity.name : effectEntity.data.label] *)
Definition nameOrLabel (effectEntity : ActiveEffect) : option string :=
  if truthyO (ae_name effectEntity) then ae_name effectEntity
  else d_label (ae_data effectEntity).

(** [effectEntity.data ? effectEntity.data.label : effectEntity.label]:
    a document always has its [data]. *)
Definition dataLabel (effectEntity : ActiveEffect) : option string :=
  d_label (ae_data effectEntity).

(** The test of one loop iteration of the find-by-name methods: an entity
    without a display name is skipped. *)
Definition nameMatches (nameOf : ActiveEffect -> option string)
  (effectName : string) (effectEntity : ActiveEffect) : bool :=
  let effectNameToSet := nameOf effectEntity in
  if negb (truthyO effectNameToSet) then false
  else isStringEquals effectNameToSet effectName.

(** The loop of [_findEffectByName]: no [break], a later match replaces
    an earlier one. *)
Definition _findEffectByName_loop (effectName : string)
  (actorEffects : list ActiveEffect) : option JsObj :=
  fold_left
    (fun effect effectEntity =>
       if nameMatches nameOrLabel effectName effectEntity
       then Some (convertActiveEffectToEffect effectEntity)
       else effect)
    actorEffects None.

Definition _findEffectByName (effectName : option string)
  (actor : option Actor) : M (option JsObj) :=
  match effectName with
  | Some effectName =>
      if negb (truthyS effectName) then mret None
      else
        actorEffects ← deref (actor_effects <$> actor);
        mret (_findEffectByName_loop effectName actorEffects)
  | None => mret None
  end.

(** The loop of [findEffectByNameOnActor] and [findEffectByNameOnToken]:
    [break] at the first match. *)
Fixpoint findByName_loop (nameOf : ActiveEffect -> option string)
  (effectName : string) (actorEffects : list ActiveEffect)
  : option ActiveEffect :=
  match actorEffects with
  | [] => None
  | effectEntity :: rest =>
      if nameMatches nameOf effectName effectEntity then Some effectEntity
      else findByName_loop nameOf effectName rest
  end.

Definition findEffectByNameOnActor (effectName : option string)
  (uuid : string) : M (option ActiveEffect) :=
  let effectName := localizeO effectName in
  actor ← getActorByUuid uuid;
  match effectName with
  | Some effectName =>
      if negb (truthyS effectName) then mret None
      else
        actorEffects ← deref (actor_effects <$> actor);
        mret (findByName_loop nameOrLabel effectName actorEffects)
  | None => mret None
  end.

(** The predicate of [hasEffectApplied] and of the [includeDisabled]
    branches of [hasEffectAppliedOnActor]. *)
Definition appliedTest (includeDisabled : bool) (effectName : string)
  (activeEffect : ActiveEffect) : bool :=
  if includeDisabled then
    isStringEquals (d_label (ae_data activeEffect)) effectName
  else
    isStringEquals (d_label (ae_data activeEffect)) effectName
    && negb (d_disabled (ae_data activeEffect)).

Definition hasEffectApplied (effectName uuid : string) : M bool :=
  actor ← getActorByUuid uuid;
  (* actor?.data?.effects?.some(...) is undefined without an actor, and
     the closing debug line then fails on actor.name *)
  actor ← deref actor;
  mret (existsb (appliedTest false effectName) (actor_effects actor)).

Definition hasEffectAppliedOnActor (effectName uuid : string)
  (includeDisabled : bool) : M bool :=
  let effectName := localize effectName in
  actor ← getActorByUuid uuid;
  actorEffects ← deref (actor_effects <$> actor);
  mret (existsb (appliedTest includeDisabled effectName) actorEffects).

(** [activeEffect?.data?.label === effectName] *)
Definition labelIs (effectName : string) (activeEffect : ActiveEffect)
  : bool :=
  bool_decide (d_label (ae_data activeEffect) = Some effectName).

Definition removeEffect (effectName uuid : string)
  : M (option ActiveEffect) :=
  actor ← getActorByUuid uuid;
  actorEffects ← deref (actor_effects <$> actor);
  match List.find (labelIs effectName) actorEffects with
  | None => mret None
  | Some effectToRemove =>
      activeEffectsRemoved ←
        deleteEmbeddedDocuments uuid [ae_id effectToRemove];
      mret (head activeEffectsRemoved)
  end.

Definition removeEffectOnActor (effectName uuid : string)
  : M (option ActiveEffect) :=
  let effectName := localize effectName in
  actor ← getActorByUuid uuid;
  actorEffects ← deref (actor_effects <$> actor);
  match List.find (labelIs effectName) actorEffects with
  | None => mret None
  | Some effectToRemove =>
      activeEffectsRemoved ←
        deleteEmbeddedDocuments uuid [ae_id effectToRemove];
      mret (head activeEffectsRemoved)
  end.

Definition removeEffectFromIdOnActor (effectId uuid : string)
  : M (option ActiveEffect) :=
  actor ← getActorByUuid uuid;
  if truthyS effectId then
    actorEffects ← deref (actor_effects <$> actor);
    match List.find (hasId effectId) actorEffects with
    | None => mret None
    | Some effectToRemove =>
        activeEffectsRemoved ←
          deleteEmbeddedDocuments uuid [ae_id effectToRemove];
        mret (head activeEffectsRemoved)
    end
  else
    (* the debug line reads actor.name *)
    _ ← deref actor;
    mret None.

(** [x.origin = src.origin ? src.origin : origin;
     x.overlay = src.overlay ? src.overlay : overlay;] *)
Definition stampOriginOverlay (src : JsObj) (origin : string)
  (overlay : bool) (x : JsObj) : JsObj :=
  let x :=
    setProp "origin"
      (if truthy (getProp "origin" src) then getProp "origin" src
       else VString origin) x in
  setProp "overlay"
    (if truthy (getProp "overlay" src) then getProp "overlay" src
     else VBool overlay) x.

Definition addEffect (effectName : option string)
  (effectData : option JsObj) (uuid origin : string) (overlay : bool)
  : M (option ActiveEffect) :=
  actor ← getActorByUuid uuid;
  found ← _findEffectByName effectName actor;
  let effect :=
    match found, effectData with
    | Some e, _ => Some e
    | None, Some d => Some (newEffect d)
    | None, None => None
    end in
  origin ← (if negb (truthyS origin)
            then a ← deref actor; mret ("Actor." +:+ actor_id a)
            else mret origin);
  let effect := _handleIntegrations <$> effect in
  (* effect.origin = effectData.origin ? ... reads effectData and writes
     effect: either being undefined is a TypeError *)
  effectData ← deref effectData;
  effect ← deref effect;
  let effect := stampOriginOverlay effectData origin overlay effect in
  activeEffectFounded ← findEffectByNameOnActor effectName uuid;
  match activeEffectFounded with
  | Some _ => mret None
  | None =>
      let activeEffectData := convertToActiveEffectData effect in
      _ ← deref actor;
      activeEffectsAdded ← createEmbeddedDocuments uuid activeEffectData;
      mret (head activeEffectsAdded)
  end.

Definition addEffectOnActor (effectName uuid origin : string)
  (overlay : bool) (effect : option JsObj) : M (option ActiveEffect) :=
  let effectName := localize effectName in
  match effect with
  | Some effect =>
      actor ← getActorByUuid uuid;
      origin ← (if negb (truthyS origin)
                then a ← deref actor; mret ("Actor." +:+ actor_id a)
                else mret origin);
      let effect := stampOriginOverlay effect origin overlay effect in
      activeEffectFounded ← findEffectByNameOnActor (Some effectName) uuid;
      match activeEffectFounded with
      | Some _ => mret None
      | None =>
          let activeEffectData := convertToActiveEffectData effect in
          _ ← deref actor;
          activeEffectsAdded ← createEmbeddedDocuments uuid activeEffectData;
          mret (head activeEffectsAdded)
      end
  | None => mret None
  end.

(** One iteration of the loop of [toggleEffect]. *)
Definition toggleEffect_step (effectName : string) (overlay : bool)
  (effectData : option JsObj) (uuid : string) : M unit :=
  hasEffectApplied effectName uuid ≫= fun applied : bool =>
  if applied then
    _ ← removeEffect effectName uuid; mret tt
  else
    actor ← getActorByUuid uuid;
    actor ← deref actor;
    let origin := "Actor." +:+ actor_id actor in
    _ ← addEffect (Some effectName) effectData uuid origin overlay;
    mret tt.

Fixpoint forOf {A} (body : A -> M unit) (l : list A) : M unit :=
  match l with
  | [] => mret tt
  | x :: rest => _ ← body x; forOf body rest
  end.

Definition toggleEffect (effectName : string) (overlay : bool)
  (uuids : list string) (effectData : option JsObj) : M bool :=
  _ ← forOf (toggleEffect_step effectName overlay effectData) uuids;
  mret true.

(** The three-way update of the [toggleEffectFromId...] methods. *)
Definition toggleDisabled (key : string) (forceEnabled forceDisabled : bool)
  (activeEffect : ActiveEffect) : M bool :=
  let disabled := d_disabled (ae_data activeEffect) in
  updated ←
    (if forceEnabled && disabled then docUpdate key activeEffect false
     else if forceDisabled && negb disabled
          then docUpdate key activeEffect true
          else docUpdate key activeEffect (negb disabled));
  mret (notNot updated).

Definition toggleEffectFromIdOnActor (effectId uuid : string)
  (alwaysDelete forceEnabled forceDisabled : bool) : M bool :=
  actor ← getActorByUuid uuid;
  actorEffects ← deref (actor_effects <$> actor);
  let activeEffect := List.find (hasId effectId) actorEffects in
  if alwaysDelete then
    activeEffect ← deref activeEffect;
    deleted ← docDelete uuid activeEffect;
    mret (notNot deleted)
  else
    activeEffect ← deref activeEffect;
    toggleDisabled uuid forceEnabled forceDisabled activeEffect.

(** [token.actor?.data.effects] *)
Definition tokenActorEffects (token : Token)
  : M (option (list ActiveEffect)) :=
  fun w =>
    (w, Ret (key ← token_actor token; actor_effects <$> (actors w !! key))).

(** [token.actor], as the key of an actor that exists *)
Definition tokenActor (token : Token) : M (option (string * Actor)) :=
  fun w =>
    (w, Ret (key ← token_actor token;
             a ← actors w !! key;
             Some (key, a))).

(** The default origin of the token methods:
    [sceneId = (token?.scene && token.scene.id) || canvas.scene?.id;
     origin = token.actor ? `Actor.${token.actor?.id}`
                          : `Scene.${sceneId}.Token.${token.id}`] *)
Definition tokenOrigin (token : Token) : M string :=
  fun w =>
    let sceneId :=
      if truthyO (token_scene token) then token_scene token
      else canvasScene w in
    (w, Ret (match token_actor token ≫= fun key => actors w !! key with
             | Some a => "Actor." +:+ actor_id a
             | None =>
                 "Scene." +:+ showO sceneId +:+ ".Token." +:+ token_id token
             end)).

Definition findEffectByNameOnToken (effectName uuid : string)
  : M (option ActiveEffect) :=
  let effectName := localize effectName in
  token ← getTokenByUuid uuid;
  token ← deref token;
  actorEffects ← tokenActorEffects token;
  if negb (truthyS effectName) then mret None
  else
    actorEffects ← deref actorEffects;
    mret (findByName_loop dataLabel effectName actorEffects).

Definition addEffectOnToken (effectName uuid origin : string)
  (overlay : bool) (effect : option JsObj) : M (option ActiveEffect) :=
  let effectName := localize effectName in
  match effect with
  | Some effect =>
      token ← getTokenByUuid uuid;
      origin ← (if negb (truthyS origin)
                then token ← deref token; tokenOrigin token
                else mret origin);
      let effect := stampOriginOverlay effect origin overlay effect in
      activeEffectFounded ← findEffectByNameOnToken effectName uuid;
      match activeEffectFounded with
      | Some activeEffectFounded => mret (Some activeEffectFounded)
      | None =>
          let activeEffectData := convertToActiveEffectData effect in
          token ← deref token;
          actor ← tokenActor token;
          (* without an actor nothing is created and reading [0] of the
             missing result fails *)
          actor ← deref actor;
          activeEffectsAdded ←
            createEmbeddedDocuments (fst actor) activeEffectData;
          mret (head activeEffectsAdded)
      end
  | None => mret None
  end.

(** [actorEffects.find((activeEffect) =>
       isStringEquals(activeEffect?.data?.label, effectName))] *)
Definition findByLabel (effectName : string)
  (actorEffects : list ActiveEffect) : option ActiveEffect :=
  List.find (fun activeEffect =>
               isStringEquals (d_label (ae_data activeEffect)) effectName)
    actorEffects.

Definition updateEffectFromNameOnToken (effectName uuid origin : string)
  (overlay : bool) (effectUpdated : option JsObj) : M (option bool) :=
  token ← getTokenByUuid uuid;
  token ← deref token;
  actorEffects ← tokenActorEffects token;
  actorEffects ← deref actorEffects;
  match findByLabel effectName actorEffects with
  | None => mret None
  | Some activeEffect =>
      origin ← (if negb (truthyS origin) then tokenOrigin token
                else mret origin);
      effectUpdated ← deref effectUpdated;
      let effectUpdated := setProp "origin" (VString origin) effectUpdated in
      let effectUpdated := setProp "overlay" (VBool overlay) effectUpdated in
      let activeEffectDataUpdated :=
        convertToActiveEffectData effectUpdated in
      let activeEffectDataUpdated :=
        setProp "_id" (VString (ae_id activeEffect))
          activeEffectDataUpdated in
      actor ← tokenActor token;
      actor ← deref actor;
      updated ←
        updateEmbeddedDocuments (fst actor) activeEffectDataUpdated;
      (* !!updated: the host answers with an array, which is truthy *)
      mret (Some true)
  end.

Definition updateActiveEffectFromNameOnToken
  (effectName uuid origin : string) (overlay : bool)
  (effectUpdated : option JsObj) : M (option bool) :=
  token ← getTokenByUuid uuid;
  token ← deref token;
  actorEffects ← tokenActorEffects token;
  actorEffects ← deref actorEffects;
  match findByLabel effectName actorEffects with
  | None => mret None
  | Some activeEffect =>
      origin ← (if negb (truthyS origin) then tokenOrigin token
                else mret origin);
      activeEffectDataUpdated ← deref effectUpdated;
      let activeEffectDataUpdated :=
        setProp "_id" (VString (ae_id activeEffect))
          activeEffectDataUpdated in
      actor ← tokenActor token;
      actor ← deref actor;
      updated ←
        updateEmbeddedDocuments (fst actor) activeEffectDataUpdated;
      mret (Some true)
  end.

End Methods.

(** *** Further methods of [EffectHandler] (effect-handler.ts) *)

Section MoreMethods.
Context {helpers : Helpers}.

(** The predicate of the [hasEffectAppliedFromId...] methods. *)
Definition appliedIdTest (includeDisabled : bool) (effectId : string)
  (activeEffect : ActiveEffect) : bool :=
  if includeDisabled then hasId effectId activeEffect
  else hasId effectId activeEffect
       && negb (d_disabled (ae_data activeEffect)).

(** [actorEffects = actor?.data.effects ?? []] *)
Definition hasEffectAppliedFromIdOnActor (effectId uuid : string)
  (includeDisabled : bool) : M bool :=
  actor ← getActorByUuid uuid;
  let actorEffects := default [] (actor_effects <$> actor) in
  mret (existsb (appliedIdTest includeDisabled effectId) actorEffects).

Definition addActiveEffectOnActor (uuid : string)
  (activeEffectData : option JsObj) : M (option ActiveEffect) :=
  match activeEffectData with
  | Some activeEffectData =>
      actor ← getActorByUuid uuid;
      activeEffectData ←
        (if negb (truthy (getProp "origin" activeEffectData))
         then a ← deref actor;
              mret (setProp "origin" (VString ("Actor." +:+ actor_id a))
                      activeEffectData)
         else mret activeEffectData);
      _ ← deref actor;
      activeEffectsAdded ← createEmbeddedDocuments uuid activeEffectData;
      mret (head activeEffectsAdded)
  | None => mret None
  end.

Definition hasEffectAppliedOnToken (effectName uuid : string)
  (includeDisabled : bool) : M bool :=
  let effectName := localize effectName in
  token ← getTokenByUuid uuid;
  token ← deref token;
  actorEffects ← tokenActorEffects token;
  actorEffects ← deref actorEffects;
  mret (existsb (appliedTest includeDisabled effectName) actorEffects).

(** [actorEffects = token.actor?.data.effects ?? []] *)
Definition hasEffectAppliedFromIdOnToken (effectId uuid : string)
  (includeDisabled : bool) : M bool :=
  token ← getTokenByUuid uuid;
  token ← deref token;
  actorEffects ← tokenActorEffects token;
  let actorEffects := default [] actorEffects in
  mret (existsb (appliedIdTest includeDisabled effectId) actorEffects).

(** [removed = await token.actor?.deleteEmbeddedDocuments(..., ids);
     return removed[0]]: without an actor there is no call, and reading
    [0] of the missing result fails. *)
Definition deleteOnTokenActor (token : Token) (ids : list string)
  : M (option ActiveEffect) :=
  actor ← tokenActor token;
  actor ← deref actor;
  activeEffectsRemoved ← deleteEmbeddedDocuments (fst actor) ids;
  mret (head activeEffectsRemoved).

Definition removeEffectOnToken (effectName uuid : string)
  : M (option ActiveEffect) :=
  let effectName := localize effectName in
  token ← getTokenByUuid uuid;
  token ← deref token;
  actorEffects ← tokenActorEffects token;
  actorEffects ← deref actorEffects;
  match List.find (labelIs effectName) actorEffects with
  | None => mret None
  | Some effectToRemove => deleteOnTokenActor token [ae_id effectToRemove]
  end.

Definition removeEffectFromIdOnToken (effectId uuid : string)
  : M (option ActiveEffect) :=
  if truthyS effectId then
    token ← getTokenByUuid uuid;
    token ← deref token;
    actorEffects ← tokenActorEffects token;
    actorEffects ← deref actorEffects;
    match List.find (hasId effectId) actorEffects with
    | Some effectToRemove => deleteOnTokenActor token [ae_id effectToRemove]
    | None => mret None
    end
  else mret None.

(** The loop of [removeEffectFromIdOnTokenMultiple]: the requested ids
    that some effect of the collection carries, in the order requested. *)
Definition presentIds (actorEffects : list ActiveEffect)
  (effectIds : list string) : list string :=
  List.filter
    (fun effectIdTmp => notNot (List.find (hasId effectIdTmp) actorEffects))
    effectIds.

Definition removeEffectFromIdOnTokenMultiple (effectIds : option (list string))
  (uuid : string) : M (option ActiveEffect) :=
  match effectIds with
  | Some effectIds =>
      token ← getTokenByUuid uuid;
      token ← deref token;
      actorEffects ← tokenActorEffects token;
      effectIdsTmp ←
        match effectIds with
        | [] => mret []
        | _ =>
            (* the first iteration calls actorEffects.find *)
            actorEffects ← deref actorEffects;
            mret (presentIds actorEffects effectIds)
        end;
      deleteOnTokenActor token effectIdsTmp
  | None => mret None
  end.

Definition toggleEffectFromIdOnToken (effectId uuid : string)
  (alwaysDelete forceEnabled forceDisabled : bool) : M (option bool) :=
  token ← getTokenByUuid uuid;
  token ← deref token;
  actorEffects ← tokenActorEffects token;
  actorEffects ← deref actorEffects;
  match List.find (hasId effectId) actorEffects with
  | None => mret None
  | Some activeEffect =>
      (* the document's parent: the token's actor, which exists here *)
      actor ← tokenActor token;
      actor ← deref actor;
      if alwaysDelete then
        deleted ← docDelete (fst actor) activeEffect;
        mret (Some (notNot deleted))
      else
        Some <$> toggleDisabled (fst actor) forceEnabled forceDisabled
                   activeEffect
  end.

Definition addActiveEffectOnToken (uuid : string)
  (activeEffectData : option JsObj) : M (option ActiveEffect) :=
  match activeEffectData with
  | Some activeEffectData =>
      token ← getTokenByUuid uuid;
      activeEffectData ←
        (if negb (truthy (getProp "origin" activeEffectData))
         then token ← deref token;
              origin ← tokenOrigin token;
              mret (setProp "origin" (VString origin) activeEffectData)
         else mret activeEffectData);
      token ← deref token;
      actor ← tokenActor token;
      (* without an actor nothing is created and reading [0] of the
         missing result fails *)
      actor ← deref actor;
      activeEffetsAdded ← createEmbeddedDocuments (fst actor) activeEffectData;
      mret (head activeEffetsAdded)
  | None => mret None
  end.

Definition updateEffectFromIdOnToken (effectId uuid origin : string)
  (overlay : bool) (effectUpdated : option JsObj) : M (option bool) :=
  token ← getTokenByUuid uuid;
  token ← deref token;
  actorEffects ← tokenActorEffects token;
  actorEffects ← deref actorEffects;
  match List.find (hasId effectId) actorEffects with
  | None => mret None
  | Some activeEffect =>
      origin ← (if negb (truthyS origin) then tokenOrigin token
                else mret origin);
      effectUpdated ← deref effectUpdated;
      let effectUpdated := setProp "origin" (VString origin) effectUpdated in
      let effectUpdated := setProp "overlay" (VBool overlay) effectUpdated in
      let activeEffectDataUpdated :=
        convertToActiveEffectData effectUpdated in
      let activeEffectDataUpdated :=
        setProp "_id" (VString (ae_id activeEffect))
          activeEffectDataUpdated in
      actor ← tokenActor token;
      actor ← deref actor;
      updated ←
        updateEmbeddedDocuments (fst actor) activeEffectDataUpdated;
      mret (Some true)
  end.

Definition updateActiveEffectFromIdOnToken (effectId uuid origin : string)
  (overlay : bool) (effectUpdated : option JsObj) : M (option bool) :=
  token ← getTokenByUuid uuid;
  token ← deref token;
  actorEffects ← tokenActorEffects token;
  actorEffects ← deref actorEffects;
  match List.find (hasId effectId) actorEffects with
  | None => mret None
  | Some activeEffect =>
      origin ← (if negb (truthyS origin) then tokenOrigin token
                else mret origin);
      activeEffectDataUpdated ← deref effectUpdated;
      let activeEffectDataUpdated :=
        setProp "_id" (VString (ae_id activeEffect))
          activeEffectDataUpdated in
      actor ← tokenActor token;
      actor ← deref actor;
      updated ←
        updateEmbeddedDocuments (fst actor) activeEffectDataUpdated;
      mret (Some true)
  end.

End MoreMethods.

(** *** The other copy of the handler in the repository

    It differs from effect-handler.ts in [toggleEffectFromIdOnActor]:
    [if (effect.getFlag('core', 'statusId') || alwaysDelete)]. *)
Module Part000.

Definition toggleEffectFromIdOnActor (effectId uuid : string)
  (alwaysDelete forceEnabled forceDisabled : bool) : M bool :=
  actor ← getActorByUuid uuid;
  actorEffects ← deref (actor_effects <$> actor);
  effect ← deref (List.find (hasId effectId) actorEffects);
  if truthyO (d_statusId (ae_data effect)) || alwaysDelete then
    deleted ← docDelete uuid effect;
    mret (notNot deleted)
  else
    toggleDisabled uuid forceEnabled forceDisabled effect.

(** Further methods of that copy: its removals return nothing, and
    [removeEffectFromIdOnActor] resolves the actor only for a non-empty
    id and does not test whether the id was found. *)
Section Removals.
Context {helpers : Helpers}.

Definition removeEffectOnActor (effectName uuid : string) : M unit :=
  let effectName := localize effectName in
  actor ← getActorByUuid uuid;
  actorEffects ← deref (actor_effects <$> actor);
  match List.find (labelIs effectName) actorEffects with
  | None => mret tt
  | Some effectToRemove =>
      _ ← deleteEmbeddedDocuments uuid [ae_id effectToRemove];
      mret tt
  end.

Definition removeEffectFromIdOnActor (effectId uuid : string) : M unit :=
  if truthyS effectId then
    actor ← getActorByUuid uuid;
    actorEffects ← deref (actor_effects <$> actor);
    effectToRemove ← deref (List.find (hasId effectId) actorEffects);
    _ ← deleteEmbeddedDocuments uuid [ae_id effectToRemove];
    mret tt
  else mret tt.

End Removals.

End Part000.

(** *** An implementation of the imported helpers, for running the
    methods on concrete worlds *)

Definition lowerAscii (c : ascii) : ascii :=
  let n := nat_of_ascii c in
  if (65 <=? n)%nat && (n <=? 90)%nat then ascii_of_nat (n + 32) else c.

Fixpoint lower (s : string) : string :=
  match s with
  | EmptyString => EmptyString
  | String c r => String (lowerAscii c) (lower r)
  end.

(** Modelled from the spec: [isStringEquals] (lib) is not among the
    sources; the spec describes the name lookups as case-insensitive
    comparisons. *)
Definition isStringEquals_model (a : option string) (b : string) : bool :=
  match a with
  | Some a => String.eqb (lower a) (lower b)
  | None => false
  end.

(** Modelled from the spec: [i18n] (lib) is not among the sources; it
    localizes an effect name, and a name without a translation entry is
    its own localization. *)
Definition i18n_model (s : string) : string := s.

(** Modelled from the spec: [EffectSupport.convertToActiveEffectData] is
    not among the sources; it converts the plain effect object into the
    host's active-effect data shape, the effect's name becoming the
    label. *)
Definition convertToActiveEffectData_model (effect : JsObj) : JsObj :=
  [("label", getProp "name" effect);
   ("origin", getProp "origin" effect);
   ("flags", VObject [("core", VObject [("overlay", getProp "overlay" effect)])])].

(** Modelled from the spec: [EffectSupport.convertActiveEffectToEffect]
    is not among the sources; it is the conversion in the other
    direction. *)
Definition convertActiveEffectToEffect_model (e : ActiveEffect) : JsObj :=
  [("customId", VString (ae_id e));
   ("name", match d_label (ae_data e) with
            | Some l => VString l
            | None => VUndefined
            end);
   ("origin", match d_origin (ae_data e) with
              | Some o => VString o
              | None => VUndefined
              end)].

(** Modelled from the spec: the [Effect] class is not among the sources;
    its constructor copies the fields of the data it is given. The
    integration hook leaves the fields read here alone. *)
Definition modelHelpers : Helpers :=
  mkHelpers isStringEquals_model i18n_model convertToActiveEffectData_model
    convertActiveEffectToEffect_model (fun d => d) (fun e => e).

End Handler.

(** ** The positional-array variants

    Every [fooArr(...inAttributes)] of the handler and of the API object
    has the same body: a guard on [Array.isArray(inAttributes)], an array
    destructuring, and one call of a method of the handler with the
    destructured elements, in the order they were destructured. *)

Module Legacy.
Import Js Handler.

(** The methods of the handler that have an [Arr] variant; [m_foo] names
    the method [foo], and the variant [fooArr]. *)
Inductive Method :=
| m_toggleEffect | m_hasEffectApplied | m_removeEffect | m_addEffect
| m_findEffectByNameOnActor | m_hasEffectAppliedOnActor
| m_hasEffectAppliedFromIdOnActor | m_removeEffectOnActor
| m_removeEffectFromIdOnActor | m_addEffectOnActor
| m_toggleEffectFromIdOnActor | m_addActiveEffectOnActor
| m_findEffectByNameOnToken | m_hasEffectAppliedOnToken
| m_hasEffectAppliedFromIdOnToken | m_removeEffectOnToken
| m_removeEffectFromIdOnToken | m_removeEffectFromIdOnTokenMultiple
| m_addEffectOnToken | m_toggleEffectFromIdOnToken
| m_addActiveEffectOnToken | m_updateEffectFromIdOnToken
| m_updateEffectFromNameOnToken | m_updateActiveEffectFromIdOnToken
| m_updateActiveEffectFromNameOnToken | m_onManageActiveEffectFromEffectId
| m_onManageActiveEffectFromEffect | m_onManageActiveEffectFromActiveEffect.

(** The body of one variant: whether it has the guard, the message of
    the guard's error, how many elements it destructures, and the method
    it calls with them. *)
Record ArrBody := mkArr {
  guarded : bool;
  message : string;
  arity : nat;
  target : Method
}.

(** The variants of the class [EffectHandler] (effect-handler.ts). *)
Definition handlerArr (m : Method) : ArrBody :=
  match m with
  | m_toggleEffect =>
      mkArr true "toggleEffectArr | inAttributes must be of type array"
        5 m_toggleEffect
  | m_hasEffectApplied =>
      mkArr true "hasEffectAppliedArr | inAttributes must be of type array"
        2 m_hasEffectApplied
  | m_removeEffect =>
      mkArr true "removeEffectArr | inAttributes must be of type array"
        2 m_removeEffect
  | m_addEffect =>
      mkArr true "addEffectArr | inAttributes must be of type array"
        6 m_addEffect
  | m_findEffectByNameOnActor =>
      mkArr true "findEffectByNameOnActorArr | inAttributes must be of type array"
        2 m_findEffectByNameOnActor
  | m_hasEffectAppliedOnActor =>
      mkArr true "hasEffectAppliedOnActorArr | inAttributes must be of type array"
        3 m_hasEffectAppliedOnActor
  | m_hasEffectAppliedFromIdOnActor =>
      mkArr true "hasEffectAppliedFromIdOnActorArr | inAttributes must be of type array"
        3 m_hasEffectAppliedFromIdOnActor
  | m_removeEffectOnActor =>
      mkArr true "removeEffectOnActorArr | inAttributes must be of type array"
        2 m_removeEffectOnActor
  | m_removeEffectFromIdOnActor =>
      mkArr true "removeEffectFromIdOnActor | inAttributes must be of type array"
        2 m_removeEffectFromIdOnActor
  | m_addEffectOnActor =>
      mkArr true "addEffectOnActorArr | inAttributes must be of type array"
        5 m_addEffectOnActor
  | m_toggleEffectFromIdOnActor =>
      mkArr true "toggleEffectFromIdOnActorArr | inAttributes must be of type array"
        5 m_toggleEffectFromIdOnActor
  | m_addActiveEffectOnActor =>
      mkArr true "addActiveEffectOnActorArr | inAttributes must be of type array"
        2 m_addActiveEffectOnActor
  | m_findEffectByNameOnToken =>
      mkArr true "findEffectByNameOnTokenArr | inAttributes must be of type array"
        2 m_findEffectByNameOnToken
  | m_hasEffectAppliedOnToken =>
      mkArr true "hasEffectAppliedOnTokenArr | inAttributes must be of type array"
        3 m_hasEffectAppliedOnToken
  | m_hasEffectAppliedFromIdOnToken =>
      mkArr true "hasEffectAppliedFromIdOnTokenArr | inAttributes must be of type array"
        3 m_hasEffectAppliedFromIdOnToken
  | m_removeEffectOnToken =>
      mkArr true "removeEffectOnTokenArr | inAttributes must be of type array"
        2 m_removeEffectOnToken
  | m_removeEffectFromIdOnToken =>
      mkArr true "removeEffectFromIdOnTokenArr | inAttributes must be of type array"
        2 m_removeEffectFromIdOnToken
  | m_removeEffectFromIdOnTokenMultiple =>
      mkArr true "removeEffectFromIdOnTokenMultipleArr | inAttributes must be of type array"
        2 m_removeEffectFromIdOnTokenMultiple
  | m_addEffectOnToken =>
      mkArr true "addEffectOnTokenArr | inAttributes must be of type array"
        5 m_addEffectOnToken
  | m_toggleEffectFromIdOnToken =>
      mkArr true "toggleEffectFromIdOnTokenArr | inAttributes must be of type array"
        5 m_toggleEffectFromIdOnToken
  | m_addActiveEffectOnToken =>
      mkArr true "addActiveEffectOnTokenArr | inAttributes must be of type array"
        2 m_addActiveEffectOnToken
  | m_updateEffectFromIdOnToken =>
      mkArr true "updateEffectFromIdOnTokenArr | inAttributes must be of type array"
        5 m_updateEffectFromIdOnToken
  | m_updateEffectFromNameOnToken =>
      mkArr true "updateEffectFromNameOnTokenArr | inAttributes must be of type array"
        5 m_updateEffectFromNameOnToken
  | m_updateActiveEffectFromIdOnToken =>
      mkArr true "updateActiveEffectFromIdOnTokenArr | inAttributes must be of type array"
        5 m_updateActiveEffectFromIdOnToken
  | m_updateActiveEffectFromNameOnToken =>
      mkArr true "updateActiveEffectFromNameOnTokenArr | inAttributes must be of type array"
        5 m_updateEffectFromNameOnToken
  | m_onManageActiveEffectFromEffectId =>
      mkArr true "onManageActiveEffectFromEffectIdArr | inAttributes must be of type array"
        8 m_onManageActiveEffectFromEffectId
  | m_onManageActiveEffectFromEffect =>
      mkArr true "onManageActiveEffectFromEffectArr | inAttributes must be of type array"
        8 m_onManageActiveEffectFromEffect
  | m_onManageActiveEffectFromActiveEffect =>
      mkArr true "onManageActiveEffectFromActiveEffectArr | inAttributes must be of type array"
        8 m_onManageActiveEffectFromActiveEffect
  end.

(** The variants of the API object; it has none for
    [addActiveEffectOnActor]. *)
Definition apiArr (m : Method) : option ArrBody :=
  match m with
  | m_removeEffect =>
      Some (mkArr true "removeEffectArr | inAttributes must be of type array"
              2 m_removeEffect)
  | m_toggleEffect =>
      Some (mkArr true "toggleEffectArr | inAttributes must be of type array"
              5 m_toggleEffect)
  | m_addEffect =>
      Some (mkArr true "addEffectArr | inAttributes must be of type array"
              6 m_addEffect)
  | m_hasEffectApplied =>
      Some (mkArr true "hasEffectAppliedArr | inAttributes must be of type array"
              2 m_hasEffectApplied)
  | m_hasEffectAppliedOnActor =>
      Some (mkArr true "hasEffectAppliedOnActorArr | inAttributes must be of type array"
              3 m_hasEffectAppliedOnActor)
  | m_hasEffectAppliedFromIdOnActor =>
      Some (mkArr true "hasEffectAppliedFromIdOnActorArr | inAttributes must be of type array"
              3 m_hasEffectAppliedFromIdOnActor)
  | m_addEffectOnActor =>
      Some (mkArr true "addEffectOnActorArr | inAttributes must be of type array"
              5 m_addEffectOnActor)
  | m_removeEffectOnActor =>
      Some (mkArr true "removeEffectOnActorArr | inAttributes must be of type array"
              2 m_removeEffectOnActor)
  | m_removeEffectFromIdOnActor =>
      Some (mkArr true "removeEffectFromIdOnActor | inAttributes must be of type array"
              2 m_removeEffectFromIdOnActor)
  | m_toggleEffectFromIdOnActor =>
      Some (mkArr true "addEffectOnActorArr | inAttributes must be of type array"
              5 m_toggleEffectFromIdOnActor)
  | m_findEffectByNameOnActor =>
      Some (mkArr true "findEffectByNameOnActorArr | inAttributes must be of type array"
              2 m_findEffectByNameOnActor)
  | m_hasEffectAppliedOnToken =>
      Some (mkArr true "hasEffectAppliedOnTokenArr | inAttributes must be of type array"
              3 m_hasEffectAppliedOnToken)
  | m_hasEffectAppliedFromIdOnToken =>
      Some (mkArr true "hasEffectAppliedFromIdOnTokenArr | inAttributes must be of type array"
              3 m_hasEffectAppliedFromIdOnToken)
  | m_addEffectOnToken =>
      Some (mkArr true "addEffectOnTokenArr | inAttributes must be of type array"
              5 m_addEffectOnToken)
  | m_removeEffectOnToken =>
      Some (mkArr true "removeEffectOnTokenArr | inAttributes must be of type array"
              2 m_removeEffectOnToken)
  | m_removeEffectFromIdOnToken =>
      Some (mkArr true "removeEffectFromIdOnToken | inAttributes must be of type array"
              2 m_removeEffectFromIdOnToken)
  | m_removeEffectFromIdOnTokenMultiple =>
      Some (mkArr true "removeEffectFromIdOnTokenMultipleArr | inAttributes must be of type array"
              2 m_removeEffectFromIdOnTokenMultiple)
  | m_toggleEffectFromIdOnToken =>
      Some (mkArr true "addEffectOnTokenArr | inAttributes must be of type array"
              5 m_toggleEffectFromIdOnToken)
  | m_findEffectByNameOnToken =>
      Some (mkArr true "findEffectByNameOnTokenArr | inAttributes must be of type array"
              2 m_findEffectByNameOnToken)
  | m_addActiveEffectOnToken =>
      Some (mkArr true "addActiveEffectOnTokenArr | inAttributes must be of type array"
              2 m_addActiveEffectOnToken)
  | m_updateEffectFromIdOnToken =>
      Some (mkArr true "updateEffectFromIdOnTokenArr | inAttributes must be of type array"
              5 m_updateEffectFromIdOnToken)
  | m_updateEffectFromNameOnToken =>
      Some (mkArr true "updateEffectFromNameOnTokenArr | inAttributes must be of type array"
              5 m_updateEffectFromNameOnToken)
  | m_updateActiveEffectFromIdOnToken =>
      Some (mkArr true "updateActiveEffectFromIdOnTokenArr | inAttributes must be of type array"
              5 m_updateActiveEffectFromIdOnToken)
  | m_updateActiveEffectFromNameOnToken =>
      Some (mkArr true "updateActiveEffectFromNameOnTokenArr | inAttributes must be of type array"
              5 m_updateActiveEffectFromNameOnToken)
  | m_onManageActiveEffectFromEffectId =>
      Some (mkArr false ""
              8 m_onManageActiveEffectFromEffectId)
  | m_onManageActiveEffectFromEffect =>
      Some (mkArr false ""
              8 m_onManageActiveEffectFromEffect)
  | m_onManageActiveEffectFromActiveEffect =>
      Some (mkArr false ""
              8 m_onManageActiveEffectFromActiveEffect)
  | m_addActiveEffectOnActor => None
  end.

(** [const [a1, ..., an] = inAttributes] *)
Definition destructure (n : nat) (inAttributes : list JsVal) : list JsVal :=
  map (fun i => item i inAttributes) (seq 0 n).

Section Run.
Context {R : Type}.
(** The base methods of the handler object the variants call, applied to
    a list of arguments. *)
Variable this : Method -> list JsVal -> M R.

(** Running a variant: the rest parameter binds the arguments of the
    call as an array. *)
Definition runArr (b : ArrBody) (args : list JsVal) : M R :=
  let inAttributes := VArray args in
  if guarded b && negb (isArray inAttributes)
  then throw (ErrorM (message b))
  else this (target b) (destructure (arity b) args).

End Run.

Section This.
Context {helpers : Helpers}.
(** The methods not modelled here, and calls outside the signatures'
    types. *)
Variable other : Method -> list JsVal -> M JsVal.

Definition ofResult (r : option bool) : JsVal :=
  match r with Some b => VBool b | None => VUndefined end.

(** The handler object, on the two update-by-name methods. *)
Definition handlerThis (m : Method) (args : list JsVal) : M JsVal :=
  match m, args with
  | m_updateEffectFromNameOnToken,
    [VString effectName; VString uuid; VString origin; VBool overlay;
     VObject effectUpdated] =>
      ofResult <$>
        updateEffectFromNameOnToken effectName uuid origin overlay
          (Some effectUpdated)
  | m_updateActiveEffectFromNameOnToken,
    [VString effectName; VString uuid; VString origin; VBool overlay;
     VObject effectUpdated] =>
      ofResult <$>
        updateActiveEffectFromNameOnToken effectName uuid origin overlay
          (Some effectUpdated)
  | _, _ => other m args
  end.

End This.

End Legacy.

(** ** Statements about the handler *)

Module HandlerSpec.
Import Js Handler.

(** The actors other than the one stored under [uuid], and the tokens,
    are the same in [w] and [w']; the actor stored under [uuid] is the
    same but for its effects. *)
Definition sameElsewhere (uuid : string) (w w' : World) : Prop :=
  (∀ k, k ≠ uuid → actors w' !! k = actors w !! k)
  ∧ tokens w' = tokens w
  ∧ ((λ a, (actor_id a, actor_name a)) <$> actors w' !! uuid)
    = ((λ a, (actor_id a, actor_name a)) <$> actors w !! uuid).

(** Outcome [r] of a removal that selected the effect [e] of the actor
    stored under [uuid]: one call of the host's delete API, with the id
    of [e] alone; when the host carries it out, [e] leaves the collection
    and is returned; when the host refuses, nothing is removed and
    nothing is returned. *)
Definition removes (w : World) (uuid : string) (e : ActiveEffect)
  (r : World * Outcome (option ActiveEffect)) : Prop :=
  let c := DeleteEmbedded uuid [ae_id e] in
  calls (fst r) = calls w ++ [c]
  ∧ sameElsewhere uuid w (fst r)
  ∧ if permits w c
    then snd r = Ret (Some e)
         ∧ effectsOf uuid (fst r)
           = filter (λ x, ae_id x ≠ ae_id e) (effectsOf uuid w)
    else snd r = Ret None
         ∧ effectsOf uuid (fst r) = effectsOf uuid w.

(** Outcome [r] of an addition that went on to create a document from
    [data] on the actor stored under [uuid]: one call of the host's
    create API; when the host carries it out, the new document goes last
    in the collection and is returned. *)
Definition creates (w : World) (uuid : string) (data : JsObj)
  (r : World * Outcome (option ActiveEffect)) : Prop :=
  let c := CreateEmbedded uuid data in
  let doc := docOfData (mkId (nextId w)) data in
  calls (fst r) = calls w ++ [c]
  ∧ sameElsewhere uuid w (fst r)
  ∧ if permits w c
    then snd r = Ret (Some doc)
         ∧ effectsOf uuid (fst r) = effectsOf uuid w ++ [doc]
    else snd r = Ret None
         ∧ effectsOf uuid (fst r) = effectsOf uuid w.

(** The call the three-way toggle makes for an effect that is not to be
    deleted, written as a decision list. *)
Definition toggleCall (uuid : string) (forceEnabled forceDisabled : bool)
  (e : ActiveEffect) : HostCall :=
  let disabled := d_disabled (ae_data e) in
  if forceEnabled && disabled then DocUpdate uuid (ae_id e) false
  else if forceDisabled && negb disabled then DocUpdate uuid (ae_id e) true
  else DocUpdate uuid (ae_id e) (negb disabled).

(** Outcome [r] of a toggle that made the host call [c] on the effect
    [e]: the call is recorded, the result is [true] exactly when the host
    carried the call out, and the collection changes accordingly. *)
Definition toggles (w : World) (uuid : string) (e : ActiveEffect)
  (c : HostCall) (r : World * Outcome bool) : Prop :=
  calls (fst r) = calls w ++ [c]
  ∧ sameElsewhere uuid w (fst r)
  ∧ snd r = Ret (permits w c)
  ∧ effectsOf uuid (fst r)
    = if permits w c then
        match c with
        | DocDelete _ _ =>
            filter (λ x, ae_id x ≠ ae_id e) (effectsOf uuid w)
        | DocUpdate _ _ b =>
            map (fun x => if hasId (ae_id e) x then setDisabled b x else x)
              (effectsOf uuid w)
        | _ => effectsOf uuid w
        end
      else effectsOf uuid w.

Section WithHelpers.
Context {helpers : Helpers}.

(** The name an add-by-name call looks up on the actor, and the lookup:
    a falsy name finds nothing. *)
Definition lookupOnActor (effectName : option string)
  (actorEffects : list ActiveEffect) : option ActiveEffect :=
  match localizeO effectName with
  | Some n =>
      if truthyS n then findByName_loop nameOrLabel n actorEffects
      else None
  | None => None
  end.

(** Number of effects of a collection that an add-by-name call for
    [effectName] would find. *)
Definition countMatching (effectName : option string)
  (actorEffects : list ActiveEffect) : nat :=
  match localizeO effectName with
  | Some n =>
      if truthyS n
      then List.length (List.filter (nameMatches nameOrLabel n) actorEffects)
      else 0
  | None => 0
  end.

End WithHelpers.

(** Between [w] and [w'] only the actors stored under the keys [keys]
    may differ, and those in their effects alone. *)
Definition onlyTouches (keys : list string) (w w' : World) : Prop :=
  (∀ k, k ∉ keys → actors w' !! k = actors w !! k)
  ∧ tokens w' = tokens w
  ∧ (∀ k, ((λ a, (actor_id a, actor_name a)) <$> actors w' !! k)
          = ((λ a, (actor_id a, actor_name a)) <$> actors w !! k)).

(** Outcome [r] of an update that selected the effect [e] of the actor
    stored under [k]: the result is [true]; there is one call of the
    host's update API, whose data carries the id of [e]; when the host
    refuses the call the collection is as before. *)
Definition sendsUpdate (w : World) (k : string) (e : ActiveEffect)
  (r : World * Outcome (option bool)) : Prop :=
  snd r = Ret (Some true)
  ∧ ∃ data,
      calls (fst r) = calls w ++ [UpdateEmbedded k data]
      ∧ getProp "_id" data = VString (ae_id e)
      ∧ (permits w (UpdateEmbedded k data) = false →
         effectsOf k (fst r) = effectsOf k w).

(** An outcome with its returned value dropped. *)
Definition dropResult {A} (r : World * Outcome A) : World * Outcome unit :=
  (fst r, match snd r with Ret _ => Ret tt | Throw err => Throw err end).

End HandlerSpec.

(** ** Sample worlds *)

Module Samples.
Import Js Handler.

(** A document with a label, enabled or disabled, and nothing else. *)
Definition labelled (id label : string) (disabled : bool) : ActiveEffect :=
  mkEffect id None (mkData (Some label) disabled None None).

(** A document that also carries a core status id. *)
Definition status (id label statusId : string) (disabled : bool)
  : ActiveEffect :=
  mkEffect id None (mkData (Some label) disabled None (Some statusId)).

Definition allow (c : HostCall) : bool := true.

(** One actor, stored under [Actor.a1], with the given effects, and one
    token of that actor, stored under [Scene.s1.Token.t1]. *)
Definition aria (l : list ActiveEffect) : Actor := mkActor "a1" "Aria" l.

Definition world (l : list ActiveEffect) : World :=
  mkWorld {["Actor.a1" := aria l]}
    {["Scene.s1.Token.t1" :=
        mkToken "t1" "Aria" (Some "Actor.a1") (Some "s1")]}
    (Some "s1") 0 allow [].

(** An effect object as a caller builds it. *)
Definition effectNamed (name : string) : JsObj :=
  [("name", VString name); ("origin", VString "Item.i1");
   ("overlay", VBool true)].

End Samples.

(** * Properties *)

(** ** The status-effect name list *)

Module ApiFacts.
Import Api.

Lemma setAdd_fold_keepFirst (l acc : list string) :
  fold_left setAdd l acc = acc ++ filter (λ y, y ∉ acc) (keepFirst l).
Proof.
  revert acc. induction l as [|x r IH]; intros acc; simpl.
  - by rewrite app_nil_r.
  - rewrite IH. unfold setAdd. rewrite filter_cons.
    destruct (decide (x ∈ acc)) as [Hin|Hin].
    + destruct (decide (x ∉ acc)) as [Hn|_]; [done|].
      f_equal. rewrite list_filter_filter. apply list_filter_iff.
      intros y. split; [|tauto]. intros Hy. split; [done|]. congruence.
    + destruct (decide (x ∉ acc)) as [_|Hn]; [|done].
      rewrite <- app_assoc. simpl. do 2 f_equal.
      rewrite list_filter_filter. apply list_filter_iff.
      intros y. rewrite not_elem_of_app, list_elem_of_singleton. tauto.
Qed.

Lemma newSet_keepFirst (l : list string) : newSet l = keepFirst l.
Proof.
  unfold newSet. rewrite setAdd_fold_keepFirst. simpl.
  induction (keepFirst l) as [|x r IH]; [done|].
  rewrite filter_cons. destruct (decide (x ∉ [])) as [_|Hn].
  - by rewrite IH.
  - exfalso. apply Hn. apply not_elem_of_nil.
Qed.

Lemma elem_of_keepFirst (l : list string) (x : string) :
  x ∈ keepFirst l ↔ x ∈ l.
Proof.
  induction l as [|a r IH]; simpl; [done|].
  rewrite !elem_of_cons, list_elem_of_filter, IH.
  destruct (decide (x = a)); tauto.
Qed.

Lemma NoDup_keepFirst (l : list string) : NoDup (keepFirst l).
Proof.
  induction l as [|a r IH]; simpl; [constructor|].
  apply NoDup_cons. split.
  - rewrite list_elem_of_filter. tauto.
  - by apply NoDup_filter.
Qed.

Lemma precedes_filter (a x y : string) (l : list string) :
  a ≠ x → a ≠ y →
  (precedes x y (filter (λ z, z ≠ a) l) ↔ precedes x y l).
Proof.
  intros Hx Hy. induction l as [|b r IH]; simpl; [done|].
  rewrite filter_cons. destruct (decide (b ≠ a)) as [Hb|Hb]; simpl.
  - destruct (decide (b = y)); [done|].
    destruct (decide (b = x)); [|done].
    rewrite list_elem_of_filter. split; [tauto|]. intros ?. split; [|done].
    congruence.
  - assert (b = a) as -> by (destruct (decide (b = a)); [done|tauto]).
    destruct (decide (a = y)); [done|].
    destruct (decide (a = x)); done.
Qed.

Lemma precedes_keepFirst (x y : string) (l : list string) :
  x ≠ y → (precedes x y (keepFirst l) ↔ precedes x y l).
Proof.
  intros Hxy. induction l as [|a r IH]; simpl; [done|].
  destruct (decide (a = y)); [done|].
  destruct (decide (a = x)) as [->|Hax].
  - rewrite list_elem_of_filter, elem_of_keepFirst. split; [tauto|].
    intros ?. split; [congruence|done].
  - rewrite precedes_filter by done. exact IH.
Qed.

(** Number of entries of [l] equal to [x]. *)
Lemma filter_other_count (name x : string) (l : list string) :
  x ≠ name →
  List.length (filter (λ y, y = x) (filter (λ y, y ≠ name) l))
  = List.length (filter (λ y, y = x) l).
Proof.
  intros Hx. rewrite list_filter_filter. f_equal.
  apply list_filter_iff. intros y. split; [tauto|]. intros ->. done.
Qed.

(** C6. [addStatusEffect] stores the old list followed by the name, with
    duplicates removed: the stored list has no duplicates, it holds
    exactly the old names and the new one, and two names are in the
    order of their first occurrences. [removeStatusEffect] stores a
    list without the name, which is a sublist of the old one (entries
    unchanged, original order) that keeps every other entry as often as
    it occurred. *)
Theorem C6_add_dedup_remove_filter (name : string) (g : Settings) :
  let old := statusEffectNames g in
  let added := statusEffectNames (addStatusEffect name g) in
  let removed := statusEffectNames (removeStatusEffect name g) in
  (NoDup added
   ∧ (∀ x, x ∈ added ↔ x ∈ old ++ [name])
   ∧ (∀ x y,
        x ≠ y → (precedes x y added ↔ precedes x y (old ++ [name]))))
  ∧ ((name ∉ removed)
     ∧ (removed `sublist_of` old)
     ∧ (∀ x, x ≠ name →
          List.length (filter (λ y, y = x) removed)
          = List.length (filter (λ y, y = x) old))).
Proof.
  simpl. unfold statusEffectNames, settingsGet; simpl.
  rewrite newSet_keepFirst. split; [split; [|split]|split; [|split]].
  - apply NoDup_keepFirst.
  - intros x. apply elem_of_keepFirst.
  - intros x y Hxy. by apply precedes_keepFirst.
  - rewrite list_elem_of_filter. tauto.
  - apply sublist_filter.
  - intros x Hx. by apply filter_other_count.
Qed.

(** The theorem at the stored list [a; b; a] and the name [b]: adding
    stores [a; b], removing stores [a; a]. *)
Lemma C6_witness :
  statusEffectNames (addStatusEffect "b" (mkSettings ["a"; "b"; "a"]))
  = ["a"; "b"]
  ∧ statusEffectNames (removeStatusEffect "b" (mkSettings ["a"; "b"; "a"]))
    = ["a"; "a"]
  ∧ (precedes "a" "b" ["a"; "b"]
     ↔ precedes "a" "b" (["a"; "b"; "a"] ++ ["b"])).
Proof.
  split; [reflexivity|]. split; [reflexivity|].
  pose proof (C6_add_dedup_remove_filter "b" (mkSettings ["a"; "b"; "a"]))
    as [[_ [_ Hord]] _].
  apply (Hord "a" "b"). discriminate.
Defined.

(** C7. [isStatusEffect name] is true right after [addStatusEffect name]
    and false right after [removeStatusEffect name]; after
    [resetStatusEffects] it is false for every name, the default list
    being empty. *)
Theorem C7_isStatusEffect_after (name : string) (g : Settings) :
  isStatusEffect name (addStatusEffect name g) = true
  ∧ isStatusEffect name (removeStatusEffect name g) = false
  ∧ (∀ n, isStatusEffect n (resetStatusEffects g) = false)
  ∧ _defaultStatusEffectNames = [].
Proof.
  unfold isStatusEffect, statusEffectNames, settingsGet; simpl.
  split; [|split; [|split; [|reflexivity]]].
  - apply bool_decide_eq_true. rewrite newSet_keepFirst, elem_of_keepFirst.
    apply elem_of_app. right. by apply list_elem_of_singleton.
  - apply bool_decide_eq_false. rewrite list_elem_of_filter. tauto.
  - intros n. reflexivity.
Qed.

End ApiFacts.

(** ** The effect handler *)

Module HandlerFacts.
Import Js Handler.

Ltac run :=
  unfold mbind, M_bind, bind, mret, M_ret, ret, throw, deref,
    getActorByUuid, getTokenByUuid; simpl.

Section Facts.
Context {helpers : Helpers}.

Lemma find_hasId_self (l : list ActiveEffect) (e : ActiveEffect) :
  NoDup (ae_id <$> l) → e ∈ l → List.find (hasId (ae_id e)) l = Some e.
Proof.
  induction l as [|x r IH]; intros Hnd Hin; [by apply elem_of_nil in Hin|].
  simpl. unfold hasId at 1. case_bool_decide as Hx.
  - apply elem_of_cons in Hin as [->|Hin]; [done|].
    simpl in Hnd. apply NoDup_cons in Hnd as [Hn _]. exfalso. apply Hn.
    rewrite Hx. apply list_elem_of_fmap. by exists e.
  - apply elem_of_cons in Hin as [->|Hin]; [done|].
    simpl in Hnd. apply NoDup_cons in Hnd as [_ Hnd]. by apply IH.
Qed.

Lemma find_elem_of {A} (P : A → bool) (l : list A) (x : A) :
  List.find P l = Some x → x ∈ l ∧ P x = true.
Proof.
  intros Hf. apply find_some in Hf as [Hin HP]. split; [|done].
  by apply list_elem_of_In.
Qed.

Lemma find_none_iff {A} (P : A → bool) (l : list A) :
  List.find P l = None ↔ ∀ x, x ∈ l → P x = false.
Proof.
  split.
  - intros Hf x Hx. apply (find_none _ _ Hf). by apply list_elem_of_In.
  - intros Hall. induction l as [|a r IH]; [done|]. simpl.
    rewrite (Hall a) by (apply elem_of_cons; by left).
    apply IH. intros x Hx. apply Hall. apply elem_of_cons. by right.
Qed.

Lemma effectsOf_putEffects (k : string) (l : list ActiveEffect) (w : World)
  (a : Actor) :
  actors w !! k = Some a → effectsOf k (putEffects k l w) = l.
Proof.
  intros Ha. unfold effectsOf, putEffects; simpl.
  rewrite lookup_alter_eq, Ha. done.
Qed.

Lemma sameElsewhere_putEffects (k : string) (l : list ActiveEffect)
  (w w1 : World) :
  actors w1 = actors w → tokens w1 = tokens w →
  HandlerSpec.sameElsewhere k w (putEffects k l w1).
Proof.
  intros Ha Ht. split; [|split]; simpl; [|done|].
  - intros k' Hk. rewrite lookup_alter_ne by done. by rewrite Ha.
  - rewrite lookup_alter_eq, Ha. by destruct (actors w !! k).
Qed.

Lemma sameElsewhere_logCall (k : string) (c : HostCall) (w : World) :
  HandlerSpec.sameElsewhere k w (logCall c w).
Proof. by repeat split. Qed.

Lemma effectsOf_actor (k : string) (w : World) (a : Actor) :
  actors w !! k = Some a → effectsOf k w = actor_effects a.
Proof. intros Ha. unfold effectsOf. by rewrite Ha. Qed.

Lemma filter_not_hasId (id : string) (l : list ActiveEffect) :
  List.filter (fun x => negb (hasId id x)) l = filter (λ x, ae_id x ≠ id) l.
Proof.
  induction l as [|x r IH]; [done|]. simpl. rewrite filter_cons, IH.
  unfold hasId. case_bool_decide; simpl; by destruct (decide _).
Qed.

Lemma filter_not_in_singleton (id : string) (l : list ActiveEffect) :
  List.filter (fun x => negb (bool_decide (ae_id x ∈ [id]))) l
  = filter (λ x, ae_id x ≠ id) l.
Proof.
  induction l as [|x r IH]; [done|]. simpl. rewrite filter_cons, IH.
  case_bool_decide as Hx; rewrite list_elem_of_singleton in Hx; simpl;
    by destruct (decide _).
Qed.

(** The tail shared by the three removal methods. *)
Lemma delete_selected (w : World) (uuid : string) (a : Actor)
  (e : ActiveEffect) :
  actors w !! uuid = Some a →
  NoDup (ae_id <$> actor_effects a) →
  e ∈ actor_effects a →
  HandlerSpec.removes w uuid e
    ((activeEffectsRemoved ← deleteEmbeddedDocuments uuid [ae_id e];
      mret (head activeEffectsRemoved)) w).
Proof.
  intros Ha Hnd Hin. unfold HandlerSpec.removes.
  unfold mbind, M_bind, bind, deleteEmbeddedDocuments, mret, M_ret, ret.
  destruct (permits w (DeleteEmbedded uuid [ae_id e])) eqn:Hp; simpl.
  - split; [done|]. split; [by apply sameElsewhere_putEffects|].
    rewrite (effectsOf_actor _ _ _ Ha).
    rewrite (find_hasId_self _ _ Hnd Hin). split; [done|].
    rewrite (effectsOf_putEffects _ _ _ a) by done.
    apply filter_not_in_singleton.
  - split; [done|]. split; [apply sameElsewhere_logCall|]. done.
Qed.

(** C5. On a resolved actor, each removal method returns [undefined]
    without any host call when no effect matches the name or the id, or
    when the id is empty; when a match exists it passes the id of the
    first matching effect, and nothing else, to the host's delete API and
    returns the effect the host removed. *)
Theorem C5_remove_no_match_or_one_delete (w : World) (uuid : string)
  (a : Actor) :
  actors w !! uuid = Some a →
  NoDup (ae_id <$> actor_effects a) →
  (∀ effectName,
     ((∀ x, x ∈ actor_effects a → labelIs effectName x = false) →
      removeEffect effectName uuid w = (w, Ret None))
     ∧ (∀ e, List.find (labelIs effectName) (actor_effects a) = Some e →
             HandlerSpec.removes w uuid e (removeEffect effectName uuid w)))
  ∧ (∀ effectName,
       ((∀ x, x ∈ actor_effects a →
              labelIs (localize effectName) x = false) →
        removeEffectOnActor effectName uuid w = (w, Ret None))
       ∧ (∀ e, List.find (labelIs (localize effectName)) (actor_effects a)
               = Some e →
               HandlerSpec.removes w uuid e
                 (removeEffectOnActor effectName uuid w)))
  ∧ (∀ effectId,
       (truthyS effectId = false →
        removeEffectFromIdOnActor effectId uuid w = (w, Ret None))
       ∧ ((∀ x, x ∈ actor_effects a → hasId effectId x = false) →
          removeEffectFromIdOnActor effectId uuid w = (w, Ret None))
       ∧ (∀ e, truthyS effectId = true →
               List.find (hasId effectId) (actor_effects a) = Some e →
               HandlerSpec.removes w uuid e
                 (removeEffectFromIdOnActor effectId uuid w))).
Proof.
  intros Ha Hnd. split; [|split].
  - intros effectName. split.
    + intros Hno. apply find_none_iff in Hno.
      unfold removeEffect. run. rewrite Ha. simpl. by rewrite Hno.
    + intros e He. pose proof (find_elem_of _ _ _ He) as [Hin _].
      pose proof (delete_selected w uuid a e Ha Hnd Hin) as Hdel.
      unfold removeEffect. run. rewrite Ha. simpl. rewrite He. exact Hdel.
  - intros effectName. split.
    + intros Hno. apply find_none_iff in Hno.
      unfold removeEffectOnActor. run. rewrite Ha. simpl. by rewrite Hno.
    + intros e He. pose proof (find_elem_of _ _ _ He) as [Hin _].
      pose proof (delete_selected w uuid a e Ha Hnd Hin) as Hdel.
      unfold removeEffectOnActor. run. rewrite Ha. simpl. rewrite He.
      exact Hdel.
  - intros effectId. split; [|split].
    + intros Hf. unfold removeEffectFromIdOnActor. run.
      rewrite Hf, Ha. done.
    + intros Hno. apply find_none_iff in Hno.
      unfold removeEffectFromIdOnActor. run. rewrite Ha.
      destruct (truthyS effectId); simpl; [by rewrite Hno|done].
    + intros e Ht He. pose proof (find_elem_of _ _ _ He) as [Hin _].
      pose proof (delete_selected w uuid a e Ha Hnd Hin) as Hdel.
      unfold removeEffectFromIdOnActor. run. rewrite Ht, Ha. simpl.
      rewrite He. exact Hdel.
Qed.

Lemma docDelete_toggles (w : World) (uuid : string) (a : Actor)
  (e : ActiveEffect) :
  actors w !! uuid = Some a →
  HandlerSpec.toggles w uuid e (DocDelete uuid (ae_id e))
    ((deleted ← docDelete uuid e; mret (notNot deleted)) w).
Proof.
  intros Ha. unfold HandlerSpec.toggles, docDelete. run.
  destruct (permits w (DocDelete uuid (ae_id e))); simpl.
  - split; [done|]. split; [by apply sameElsewhere_putEffects|].
    split; [done|]. rewrite (effectsOf_putEffects _ _ _ a) by done.
    apply filter_not_hasId.
  - split; [done|]. split; [apply sameElsewhere_logCall|]. done.
Qed.

Lemma docUpdate_toggles (w : World) (uuid : string) (a : Actor)
  (e : ActiveEffect) (b : bool) :
  actors w !! uuid = Some a →
  HandlerSpec.toggles w uuid e (DocUpdate uuid (ae_id e) b)
    ((updated ← docUpdate uuid e b; mret (notNot updated)) w).
Proof.
  intros Ha. unfold HandlerSpec.toggles, docUpdate. run.
  destruct (permits w (DocUpdate uuid (ae_id e) b)); simpl.
  - split; [done|]. split; [by apply sameElsewhere_putEffects|].
    split; [done|]. by rewrite (effectsOf_putEffects _ _ _ a).
  - split; [done|]. split; [apply sameElsewhere_logCall|]. done.
Qed.

Lemma toggleDisabled_toggles (w : World) (uuid : string) (a : Actor)
  (e : ActiveEffect) (forceEnabled forceDisabled : bool) :
  actors w !! uuid = Some a →
  HandlerSpec.toggles w uuid e
    (HandlerSpec.toggleCall uuid forceEnabled forceDisabled e)
    (toggleDisabled uuid forceEnabled forceDisabled e w).
Proof.
  intros Ha. unfold toggleDisabled, HandlerSpec.toggleCall.
  destruct (forceEnabled && d_disabled (ae_data e));
    [by apply (docUpdate_toggles w uuid a)|].
  destruct (forceDisabled && negb (d_disabled (ae_data e)));
    by apply (docUpdate_toggles w uuid a).
Qed.

(** C3, as amended. Given the id of an effect of the actor, the method
    of effect-handler.ts deletes the effect when [alwaysDelete] is set,
    and otherwise updates its [disabled] flag: to [false] when
    [forceEnabled] is set and the effect is disabled, else to [true] when
    [forceDisabled] is set and the effect is enabled, else to the
    negation of the flag. The other copy of the handler does the same
    except that it also deletes an effect that carries a core status id.
    Either way there is one host call, and the result is [true] exactly
    when the host carried it out. *)
Theorem C3_toggle_three_branches (w : World) (uuid effectId : string)
  (a : Actor) (e : ActiveEffect)
  (alwaysDelete forceEnabled forceDisabled : bool) :
  actors w !! uuid = Some a →
  List.find (hasId effectId) (actor_effects a) = Some e →
  HandlerSpec.toggles w uuid e
    (if alwaysDelete then DocDelete uuid (ae_id e)
     else HandlerSpec.toggleCall uuid forceEnabled forceDisabled e)
    (toggleEffectFromIdOnActor effectId uuid alwaysDelete forceEnabled
       forceDisabled w)
  ∧ HandlerSpec.toggles w uuid e
      (if truthyO (d_statusId (ae_data e)) || alwaysDelete
       then DocDelete uuid (ae_id e)
       else HandlerSpec.toggleCall uuid forceEnabled forceDisabled e)
      (Part000.toggleEffectFromIdOnActor effectId uuid alwaysDelete
         forceEnabled forceDisabled w).
Proof.
  intros Ha He. split.
  - unfold toggleEffectFromIdOnActor.
    unfold mbind at 1 2, M_bind at 1 2, bind at 1 2, getActorByUuid, deref.
    rewrite Ha. simpl. rewrite He.
    destruct alwaysDelete.
    + by apply (docDelete_toggles w uuid a).
    + by apply (toggleDisabled_toggles w uuid a).
  - unfold Part000.toggleEffectFromIdOnActor.
    unfold mbind at 1 2 3, M_bind at 1 2 3, bind at 1 2 3, getActorByUuid,
      deref.
    rewrite Ha. simpl. rewrite He. simpl.
    destruct (truthyO (d_statusId (ae_data e)) || alwaysDelete).
    + by apply (docDelete_toggles w uuid a).
    + by apply (toggleDisabled_toggles w uuid a).
Qed.

Lemma findByName_loop_first (nameOf : ActiveEffect → option string)
  (n : string) (l1 l2 : list ActiveEffect) (e : ActiveEffect) :
  nameMatches nameOf n e = true →
  (∀ x, x ∈ l1 → nameMatches nameOf n x = false) →
  findByName_loop nameOf n (l1 ++ e :: l2) = Some e.
Proof.
  intros He Hno. induction l1 as [|x r IH]; simpl.
  - by rewrite He.
  - rewrite (Hno x) by (apply elem_of_cons; by left).
    apply IH. intros y Hy. apply Hno. apply elem_of_cons. by right.
Qed.

Lemma _findEffectByName_loop_last (n : string) (l1 l2 : list ActiveEffect)
  (e : ActiveEffect) :
  nameMatches nameOrLabel n e = true →
  (∀ x, x ∈ l2 → nameMatches nameOrLabel n x = false) →
  _findEffectByName_loop n (l1 ++ e :: l2)
  = Some (convertActiveEffectToEffect e).
Proof.
  intros He Hno. unfold _findEffectByName_loop.
  rewrite fold_left_app. simpl. rewrite He.
  generalize (Some (convertActiveEffectToEffect e)) as acc.
  induction l2 as [|x r IH]; intros acc; simpl; [done|].
  rewrite (Hno x) by (apply elem_of_cons; by left).
  apply IH. intros y Hy. apply Hno. apply elem_of_cons. by right.
Qed.

(** C10. When several effects of an actor match the requested name,
    [findEffectByNameOnActor] returns the first of them in the
    collection's order, and [_findEffectByName] the conversion of the
    last of them. (The former looks the localized name up, the latter the
    name as given.) *)
Theorem C10_first_match_vs_last_match (w : World) (uuid effectName : string)
  (a : Actor) (l1 l2 l3 l4 : list ActiveEffect) (first last : ActiveEffect) :
  actors w !! uuid = Some a →
  truthyS effectName = true →
  truthyS (localize effectName) = true →
  actor_effects a = l1 ++ first :: l2 →
  nameMatches nameOrLabel (localize effectName) first = true →
  (∀ x, x ∈ l1 → nameMatches nameOrLabel (localize effectName) x = false) →
  actor_effects a = l3 ++ last :: l4 →
  nameMatches nameOrLabel effectName last = true →
  (∀ x, x ∈ l4 → nameMatches nameOrLabel effectName x = false) →
  findEffectByNameOnActor (Some effectName) uuid w = (w, Ret (Some first))
  ∧ _findEffectByName (Some effectName) (Some a) w
    = (w, Ret (Some (convertActiveEffectToEffect last))).
Proof.
  intros Ha Ht Htl Hl1 Hfirst Hbefore Hl2 Hlast Hafter. split.
  - unfold findEffectByNameOnActor. run. rewrite Htl, Ha. simpl.
    rewrite Hl1. by rewrite findByName_loop_first.
  - unfold _findEffectByName. run. rewrite Ht. simpl.
    rewrite Hl2. by rewrite _findEffectByName_loop_last.
Qed.

Lemma mbind_ret {A B} (m : M A) (k : A → M B) (w w' : World) (x : A) :
  m w = (w', Ret x) → (m ≫= k) w = k x w'.
Proof. intros Hm. unfold mbind, M_bind, bind. by rewrite Hm. Qed.

Lemma create_creates (w : World) (uuid : string) (a : Actor) (data : JsObj) :
  actors w !! uuid = Some a →
  HandlerSpec.creates w uuid data
    ((activeEffectsAdded ← createEmbeddedDocuments uuid data;
      mret (head activeEffectsAdded)) w).
Proof.
  intros Ha. unfold HandlerSpec.creates, createEmbeddedDocuments. run.
  destruct (permits w (CreateEmbedded uuid data)); simpl.
  - split; [done|]. split; [by apply sameElsewhere_putEffects|].
    split; [done|]. by rewrite (effectsOf_putEffects _ _ _ a).
  - split; [done|]. split; [apply sameElsewhere_logCall|]. done.
Qed.

Lemma findEffectByNameOnActor_lookup (w : World) (uuid : string) (a : Actor)
  (effectName : option string) :
  actors w !! uuid = Some a →
  findEffectByNameOnActor effectName uuid w
  = (w, Ret (HandlerSpec.lookupOnActor effectName (actor_effects a))).
Proof.
  intros Ha. unfold findEffectByNameOnActor, HandlerSpec.lookupOnActor. run.
  rewrite Ha. destruct (localizeO effectName) as [n|]; [|done].
  destruct (truthyS n); done.
Qed.

Lemma _findEffectByName_returns (w : World) (a : Actor)
  (effectName : option string) :
  ∃ found, _findEffectByName effectName (Some a) w = (w, Ret found).
Proof.
  unfold _findEffectByName. destruct effectName as [n|]; [|by eexists].
  destruct (truthyS n); run; by eexists.
Qed.

Lemma defaultOrigin_returns (w : World) (a : Actor) (origin : string) :
  ∃ origin',
    (if negb (truthyS origin)
     then a ← deref (Some a); mret ("Actor." +:+ actor_id a)
     else mret origin) w = (w, Ret origin').
Proof. destruct (truthyS origin); run; by eexists. Qed.

Lemma lookup_none_count (effectName : option string)
  (l : list ActiveEffect) :
  HandlerSpec.lookupOnActor effectName l = None →
  HandlerSpec.countMatching effectName l = 0.
Proof.
  unfold HandlerSpec.lookupOnActor, HandlerSpec.countMatching.
  destruct (localizeO effectName) as [n|]; [|done].
  destruct (truthyS n); [|done].
  induction l as [|x r IH]; simpl; [done|].
  destruct (nameMatches nameOrLabel n x); [done|]. exact IH.
Qed.

Lemma countMatching_snoc (effectName : option string)
  (l : list ActiveEffect) (x : ActiveEffect) :
  (HandlerSpec.countMatching effectName (l ++ [x])
   ≤ HandlerSpec.countMatching effectName l + 1)%nat.
Proof.
  unfold HandlerSpec.countMatching.
  destruct (localizeO effectName) as [n|]; [|lia].
  destruct (truthyS n); [|lia].
  rewrite List.filter_app, length_app. simpl.
  destruct (nameMatches nameOrLabel n x); simpl; lia.
Qed.

(** A creation keeps an actor without a match at one match at most. *)
Lemma creates_count (w : World) (uuid : string) (a : Actor) (data : JsObj)
  (effectName : option string) (r : World * Outcome (option ActiveEffect)) :
  actors w !! uuid = Some a →
  HandlerSpec.lookupOnActor effectName (actor_effects a) = None →
  HandlerSpec.creates w uuid data r →
  (HandlerSpec.countMatching effectName (effectsOf uuid (fst r)) ≤ 1)%nat.
Proof.
  intros Ha Hno (_ & _ & Hr). apply lookup_none_count in Hno.
  rewrite (effectsOf_actor _ _ _ Ha) in Hr.
  destruct (permits w (CreateEmbedded uuid data)); destruct Hr as [_ ->].
  - etrans; [apply countMatching_snoc|]. lia.
  - lia.
Qed.

Lemma addEffect_outcome (w : World) (uuid : string) (a : Actor)
  (effectName : option string) (effectData : JsObj) (origin : string)
  (overlay : bool) :
  actors w !! uuid = Some a →
  let r := addEffect effectName (Some effectData) uuid origin overlay w in
  match HandlerSpec.lookupOnActor effectName (actor_effects a) with
  | Some _ => r = (w, Ret None)
  | None => ∃ data, HandlerSpec.creates w uuid data r
  end.
Proof.
  intros Ha r. subst r. unfold addEffect.
  rewrite (mbind_ret _ _ w w (Some a)) by (run; by rewrite Ha).
  destruct (_findEffectByName_returns w a effectName) as [found Hfound].
  rewrite (mbind_ret _ _ w w found) by exact Hfound.
  destruct (defaultOrigin_returns w a origin) as [origin' Horigin].
  rewrite (mbind_ret _ _ w w origin') by exact Horigin.
  rewrite (mbind_ret _ _ w w effectData) by reflexivity.
  destruct found as [e|].
  - rewrite (mbind_ret _ _ w w (_handleIntegrations e)) by reflexivity.
    rewrite (mbind_ret _ _ w w _
               (findEffectByNameOnActor_lookup w uuid a effectName Ha)).
    destruct (HandlerSpec.lookupOnActor effectName (actor_effects a));
      [done|].
    rewrite (mbind_ret _ _ w w a) by reflexivity.
    eexists. by apply (create_creates w uuid a).
  - rewrite (mbind_ret _ _ w w (_handleIntegrations (newEffect effectData)))
      by reflexivity.
    rewrite (mbind_ret _ _ w w _
               (findEffectByNameOnActor_lookup w uuid a effectName Ha)).
    destruct (HandlerSpec.lookupOnActor effectName (actor_effects a));
      [done|].
    rewrite (mbind_ret _ _ w w a) by reflexivity.
    eexists. by apply (create_creates w uuid a).
Qed.

(** Without effect data [addEffect] fails on [effectData.origin], before
    any host call. *)
Lemma addEffect_without_data_throws (w : World) (uuid : string) (a : Actor)
  (effectName : option string) (origin : string) (overlay : bool) :
  actors w !! uuid = Some a →
  addEffect effectName None uuid origin overlay w = (w, Throw TypeError).
Proof.
  intros Ha. unfold addEffect.
  rewrite (mbind_ret _ _ w w (Some a)) by (run; by rewrite Ha).
  destruct (_findEffectByName_returns w a effectName) as [found Hfound].
  rewrite (mbind_ret _ _ w w found) by exact Hfound.
  destruct (defaultOrigin_returns w a origin) as [origin' Horigin].
  by rewrite (mbind_ret _ _ w w origin') by exact Horigin.
Qed.

Lemma addEffectOnActor_outcome (w : World) (uuid : string) (a : Actor)
  (effectName : string) (effect : JsObj) (origin : string) (overlay : bool) :
  actors w !! uuid = Some a →
  let r := addEffectOnActor effectName uuid origin overlay (Some effect) w in
  match HandlerSpec.lookupOnActor (Some (localize effectName))
          (actor_effects a) with
  | Some _ => r = (w, Ret None)
  | None => ∃ data, HandlerSpec.creates w uuid data r
  end.
Proof.
  intros Ha r. subst r. unfold addEffectOnActor.
  rewrite (mbind_ret _ _ w w (Some a)) by (run; by rewrite Ha).
  destruct (defaultOrigin_returns w a origin) as [origin' Horigin].
  rewrite (mbind_ret _ _ w w origin') by exact Horigin.
  rewrite (mbind_ret _ _ w w _
             (findEffectByNameOnActor_lookup w uuid a _ Ha)).
  destruct (HandlerSpec.lookupOnActor (Some (localize effectName))
              (actor_effects a)); [done|].
  rewrite (mbind_ret _ _ w w a) by reflexivity.
  eexists. by apply (create_creates w uuid a).
Qed.

(** C1, as amended. An add-by-name call first looks the requested name
    up among the actor's effects ([addEffectOnActor] localizes it once
    more before the lookup). When the lookup finds an effect the call
    returns [undefined] and makes no host call; otherwise it makes one
    call of the host's create API. Hence a call never takes the number of
    effects that match the requested name above one. *)
Theorem C1_add_checks_then_creates (w : World) (uuid : string) (a : Actor) :
  actors w !! uuid = Some a →
  (∀ effectName effectData origin overlay,
     let r := addEffect effectName (Some effectData) uuid origin overlay w in
     match HandlerSpec.lookupOnActor effectName (actor_effects a) with
     | Some _ => r = (w, Ret None)
     | None => ∃ data, HandlerSpec.creates w uuid data r
     end
     ∧ ((HandlerSpec.countMatching effectName (actor_effects a) ≤ 1)%nat →
        (HandlerSpec.countMatching effectName (effectsOf uuid (fst r))
         ≤ 1)%nat))
  ∧ (∀ effectName effect origin overlay,
       let r := addEffectOnActor effectName uuid origin overlay (Some effect)
                  w in
       let looked := Some (localize effectName) in
       match HandlerSpec.lookupOnActor looked (actor_effects a) with
       | Some _ => r = (w, Ret None)
       | None => ∃ data, HandlerSpec.creates w uuid data r
       end
       ∧ ((HandlerSpec.countMatching looked (actor_effects a) ≤ 1)%nat →
          (HandlerSpec.countMatching looked (effectsOf uuid (fst r))
           ≤ 1)%nat)).
Proof.
  intros Ha. split.
  - intros effectName effectData origin overlay r.
    pose proof (addEffect_outcome w uuid a effectName effectData origin
                  overlay Ha) as Hr.
    fold r in Hr. split; [exact Hr|]. intros Hcount.
    destruct (HandlerSpec.lookupOnActor effectName (actor_effects a)) eqn:Hl.
    + rewrite Hr. simpl. by rewrite (effectsOf_actor _ _ _ Ha).
    + destruct Hr as [data Hr]. by apply (creates_count w uuid a data).
  - intros effectName effect origin overlay r looked.
    pose proof (addEffectOnActor_outcome w uuid a effectName effect origin
                  overlay Ha) as Hr.
    fold r looked in Hr. split; [exact Hr|]. intros Hcount.
    destruct (HandlerSpec.lookupOnActor looked (actor_effects a)) eqn:Hl.
    + rewrite Hr. simpl. by rewrite (effectsOf_actor _ _ _ Ha).
    + destruct Hr as [data Hr]. by apply (creates_count w uuid a data).
Qed.

Lemma sameElsewhere_refl (uuid : string) (w : World) :
  HandlerSpec.sameElsewhere uuid w w.
Proof. by repeat split. Qed.

Lemma sameElsewhere_is_Some (uuid k : string) (w w' : World) :
  HandlerSpec.sameElsewhere uuid w w' →
  is_Some (actors w !! k) → is_Some (actors w' !! k).
Proof.
  intros (Hother & _ & Hself) Hk. destruct (decide (k = uuid)) as [->|Hne].
  - destruct Hk as [x Hx]. rewrite Hx in Hself.
    destruct (actors w' !! uuid); [by eexists|discriminate].
  - by rewrite Hother.
Qed.

Lemma hasEffectApplied_returns (w : World) (uuid effectName : string)
  (a : Actor) :
  actors w !! uuid = Some a →
  hasEffectApplied effectName uuid w
  = (w, Ret (existsb (appliedTest false effectName) (actor_effects a))).
Proof. intros Ha. unfold hasEffectApplied. run. by rewrite Ha. Qed.



(** One iteration of the loop of [toggleEffect], on a resolved actor,
    is the removal or the addition, its result dropped. *)
Lemma toggleEffect_step_unfold (w : World) (uuid effectName : string)
  (a : Actor) (overlay : bool) (effectData : JsObj) :
  actors w !! uuid = Some a →
  toggleEffect_step effectName overlay (Some effectData) uuid w
  = if existsb (appliedTest false effectName) (actor_effects a)
    then (_ ← removeEffect effectName uuid; mret tt) w
    else (_ ← addEffect (Some effectName) (Some effectData) uuid
                ("Actor." +:+ actor_id a) overlay; mret tt) w.
Proof.
  intros Ha. unfold toggleEffect_step.
  rewrite (mbind_ret _ _ w w _ (hasEffectApplied_returns w uuid _ a Ha)).
  destruct (existsb (appliedTest false effectName) (actor_effects a));
    [done|].
  rewrite (mbind_ret _ _ w w (Some a)) by (run; by rewrite Ha).
  by rewrite (mbind_ret _ _ w w a) by reflexivity.
Qed.





(** When [hasEffectApplied] reports the effect as applied but no label
    is the name itself, the iteration changes nothing. *)
Lemma toggleEffect_step_applied_without_label (w : World)
  (uuid effectName : string) (a : Actor) (overlay : bool)
  (effectData : JsObj) :
  actors w !! uuid = Some a →
  existsb (appliedTest false effectName) (actor_effects a) = true →
  List.find (labelIs effectName) (actor_effects a) = None →
  toggleEffect_step effectName overlay (Some effectData) uuid w
  = (w, Ret tt).
Proof.
  intros Ha Happ Hnone.
  rewrite (toggleEffect_step_unfold w uuid effectName a) by done.
  rewrite Happ. unfold removeEffect. run. rewrite Ha. simpl.
  by rewrite Hnone.
Qed.


Lemma tokenOrigin_returns (w : World) (t : Token) (origin : string) :
  ∃ origin',
    (if negb (truthyS origin)
     then token ← deref (Some t); tokenOrigin token
     else mret origin) w = (w, Ret origin').
Proof. destruct (truthyS origin); run; by eexists. Qed.

Lemma findByName_loop_is_Some (nameOf : ActiveEffect → option string)
  (n : string) (l : list ActiveEffect) (x : ActiveEffect) :
  x ∈ l → nameMatches nameOf n x = true →
  is_Some (findByName_loop nameOf n l).
Proof.
  intros Hx Hm. induction l as [|y r IH]; [by apply elem_of_nil in Hx|].
  simpl. destruct (nameMatches nameOf n y) eqn:Hy; [by eexists|].
  apply IH. apply elem_of_cons in Hx as [->|Hx]; [congruence|done].
Qed.

(** C9, as amended. Called with a null or undefined effect,
    [addEffectOnToken] and [addEffectOnActor] return [undefined] and do
    nothing else. Called with an effect object, on a token that resolves
    and has an actor: when an effect whose label matches the localized,
    non-empty name is present on the token's actor, [addEffectOnToken]
    returns the first such document and makes no host call. In the same
    situation on an actor (an effect whose name or label matches is
    present), [addEffectOnActor] returns [undefined] and makes no host
    call either. The lookups localize the name once more. *)
Theorem C9_duplicate_token_returns_found (w : World)
  (effectName origin : string) (overlay : bool) :
  let looked := localize (localize effectName) in
  (∀ uuid,
     addEffectOnToken effectName uuid origin overlay None w = (w, Ret None)
     ∧ addEffectOnActor effectName uuid origin overlay None w
       = (w, Ret None))
  ∧ (∀ uuid k t a effect l1 found l2,
       tokens w !! uuid = Some t →
       token_actor t = Some k →
       actors w !! k = Some a →
       truthyS looked = true →
       actor_effects a = l1 ++ found :: l2 →
       nameMatches dataLabel looked found = true →
       (∀ x, x ∈ l1 → nameMatches dataLabel looked x = false) →
       addEffectOnToken effectName uuid origin overlay (Some effect) w
       = (w, Ret (Some found)))
  ∧ (∀ uuid a effect found,
       actors w !! uuid = Some a →
       truthyS looked = true →
       found ∈ actor_effects a →
       nameMatches nameOrLabel looked found = true →
       addEffectOnActor effectName uuid origin overlay (Some effect) w
       = (w, Ret None)).
Proof.
  intros looked. split; [|split].
  - intros uuid. by split.
  - intros uuid k t a effect l1 found l2 Ht Hk Ha Hname Hl Hfound Hbefore.
    assert (findEffectByNameOnToken (localize effectName) uuid w
            = (w, Ret (Some found))) as Hfind.
    { unfold findEffectByNameOnToken, tokenActorEffects. run.
      rewrite Ht. simpl. rewrite Hk. simpl. rewrite Ha. simpl.
      fold looked. rewrite Hname. simpl. rewrite Hl.
      by rewrite findByName_loop_first. }
    unfold addEffectOnToken.
    rewrite (mbind_ret _ _ w w (Some t)) by (run; by rewrite Ht).
    destruct (tokenOrigin_returns w t origin) as [origin' Horigin].
    rewrite (mbind_ret _ _ w w origin') by exact Horigin.
    by rewrite (mbind_ret _ _ w w (Some found)) by exact Hfind.
  - intros uuid a effect found Ha Hname Hin Hfound.
    pose proof (addEffectOnActor_outcome w uuid a effectName effect origin
                  overlay Ha) as Hr. simpl in Hr.
    unfold HandlerSpec.lookupOnActor in Hr. simpl in Hr.
    fold looked in Hr. rewrite Hname in Hr.
    destruct (findByName_loop_is_Some nameOrLabel looked (actor_effects a)
                found Hin Hfound) as [first Hfirst].
    by rewrite Hfirst in Hr.
Qed.

(** C4, at the failing inputs. Whenever [isStringEquals] equates the
    label of an actor's only effect with a requested name that is not
    the label itself (a difference in case, for instance), the lookups
    [hasEffectAppliedOnActor] and [findEffectByNameOnActor] find the
    effect, but [removeEffectOnActor], which compares with [===], finds
    nothing: it returns [undefined] and makes no host call. *)
Theorem C4_removeEffectOnActor_exact_match_only (w : World)
  (uuid label effectName : string) (a : Actor) (e : ActiveEffect) :
  actors w !! uuid = Some a →
  actor_effects a = [e] →
  ae_name e = None →
  d_label (ae_data e) = Some label →
  d_disabled (ae_data e) = false →
  truthyS label = true →
  truthyS (localize effectName) = true →
  isStringEquals (Some label) (localize effectName) = true →
  label ≠ localize effectName →
  hasEffectAppliedOnActor effectName uuid false w = (w, Ret true)
  ∧ findEffectByNameOnActor (Some effectName) uuid w = (w, Ret (Some e))
  ∧ removeEffectOnActor effectName uuid w = (w, Ret None).
Proof.
  intros Ha Hl Hname Hlabel Hdis Htl Htn Heq Hne. split; [|split].
  - unfold hasEffectAppliedOnActor. run. rewrite Ha. simpl.
    rewrite Hl. simpl. unfold appliedTest. by rewrite Hlabel, Heq, Hdis.
  - rewrite (findEffectByNameOnActor_lookup w uuid a _ Ha).
    unfold HandlerSpec.lookupOnActor. simpl. rewrite Htn, Hl. simpl.
    unfold nameMatches, nameOrLabel. rewrite Hname. simpl.
    by rewrite Hlabel; simpl; rewrite Htl, Heq.
  - unfold removeEffectOnActor. run. rewrite Ha. simpl. rewrite Hl. simpl.
    unfold labelIs. rewrite Hlabel. rewrite bool_decide_eq_false_2; [done|].
    congruence.
Qed.

End Facts.

(** The theorem on an actor with a disabled "Blinded" and an enabled
    "Prone": an unknown name changes nothing, and removing "Prone" makes
    one delete call for that document and returns it. *)
Lemma C5_witness :
  let w := Samples.world
             [Samples.labelled "e1" "Blinded" true;
              Samples.labelled "e2" "Prone" false] in
  removeEffect "Stunned" "Actor.a1" w
  = (w, Ret None)
  ∧ HandlerSpec.removes w "Actor.a1" (Samples.labelled "e2" "Prone" false)
      (removeEffect "Prone" "Actor.a1" w).
Proof.
  intros w.
  assert (actors w !! "Actor.a1"
          = Some (Samples.aria [Samples.labelled "e1" "Blinded" true;
                                Samples.labelled "e2" "Prone" false]))
    as Ha by reflexivity.
  assert (NoDup (ae_id <$> actor_effects
                   (Samples.aria [Samples.labelled "e1" "Blinded" true;
                                  Samples.labelled "e2" "Prone" false])))
    as Hnd by (by compute_done).
  destruct (C5_remove_no_match_or_one_delete (helpers := modelHelpers)
              w "Actor.a1" _ Ha Hnd) as [Hname _].
  split.
  - apply (Hname "Stunned"). intros x Hx. simpl in Hx.
    repeat (apply elem_of_cons in Hx as [->|Hx]; [reflexivity|]).
    by apply elem_of_nil in Hx.
  - apply (Hname "Prone"). reflexivity.
Defined.

(** The claim as stated fails on the other copy of the handler: without
    [alwaysDelete], an effect that carries a core status id is deleted,
    its [disabled] flag is not flipped. *)
Lemma C3_counterexample :
  let e := Samples.status "e1" "Blinded" "blinded" false in
  let w := Samples.world [e] in
  let r := Part000.toggleEffectFromIdOnActor "e1" "Actor.a1" false false
             false w in
  calls (fst r) = [DocDelete "Actor.a1" "e1"]
  ∧ effectsOf "Actor.a1" (fst r) = []
  ∧ snd r = Ret true
  ∧ ¬ HandlerSpec.toggles w "Actor.a1" e
        (HandlerSpec.toggleCall "Actor.a1" false false e) r.
Proof.
  intros e w r. split; [reflexivity|]. split; [reflexivity|].
  split; [reflexivity|]. intros [Hcalls _]. discriminate Hcalls.
Defined.

(** The theorem on an enabled effect without a status id, toggled with
    [forceEnabled]: both copies of the handler disable it. *)
Lemma C3_witness :
  let e := Samples.labelled "e1" "Blinded" false in
  let w := Samples.world [e] in
  HandlerSpec.toggles w "Actor.a1" e (DocUpdate "Actor.a1" "e1" true)
    (toggleEffectFromIdOnActor "e1" "Actor.a1" false true false w)
  ∧ HandlerSpec.toggles w "Actor.a1" e (DocUpdate "Actor.a1" "e1" true)
      (Part000.toggleEffectFromIdOnActor "e1" "Actor.a1" false true false w).
Proof.
  intros e w.
  exact (C3_toggle_three_branches w "Actor.a1" "e1" (Samples.aria [e]) e
           false true false eq_refl eq_refl).
Defined.

(** The theorem on an actor with "Blinded", "Prone" and "blinded", in
    that order: the first and the third match. *)
Lemma C10_witness :
  let e1 := Samples.labelled "e1" "Blinded" false in
  let e2 := Samples.labelled "e2" "Prone" false in
  let e3 := Samples.labelled "e3" "blinded" true in
  let w := Samples.world [e1; e2; e3] in
  findEffectByNameOnActor (helpers := modelHelpers) (Some "Blinded")
    "Actor.a1" w = (w, Ret (Some e1))
  ∧ _findEffectByName (helpers := modelHelpers) (Some "Blinded")
      (Some (Samples.aria [e1; e2; e3])) w
    = (w, Ret (Some (convertActiveEffectToEffect_model e3))).
Proof.
  intros e1 e2 e3 w.
  apply (C10_first_match_vs_last_match (helpers := modelHelpers)
           w "Actor.a1" "Blinded" (Samples.aria [e1; e2; e3])
           [] [e2; e3] [e1; e2] [] e1 e3);
    try reflexivity;
    intros x Hx; by apply elem_of_nil in Hx.
Defined.

(** The claim as stated fails: the check looks the requested name up,
    the created document takes its label from the effect object. Adding
    under the name "Foo" an effect object named "Bar", twice, leaves two
    effects labelled "Bar"; and with an empty name there is no check at
    all. *)
Lemma C1_counterexample :
  let w := Samples.world [] in
  let add name effectName w :=
    fst (addEffectOnActor (helpers := modelHelpers) name "Actor.a1" ""
           false (Some (Samples.effectNamed effectName)) w) in
  nameOrLabel <$> effectsOf "Actor.a1" (add "Foo" "Bar" (add "Foo" "Bar" w))
  = [Some "Bar"; Some "Bar"]
  ∧ nameOrLabel <$> effectsOf "Actor.a1" (add "" "Blinded" (add "" "Blinded" w))
    = [Some "Blinded"; Some "Blinded"].
Proof. split; reflexivity. Defined.

(** The theorem on an actor with a disabled "Blinded": neither method
    adds "blinded". *)
Lemma C1_witness :
  let w := Samples.world [Samples.labelled "e1" "Blinded" true] in
  addEffect (helpers := modelHelpers) (Some "blinded")
    (Some (Samples.effectNamed "blinded")) "Actor.a1" "" false w
  = (w, Ret None)
  ∧ addEffectOnActor (helpers := modelHelpers) "blinded" "Actor.a1" ""
      false (Some (Samples.effectNamed "blinded")) w
    = (w, Ret None).
Proof.
  intros w.
  destruct (C1_add_checks_then_creates (helpers := modelHelpers) w
              "Actor.a1" (Samples.aria [Samples.labelled "e1" "Blinded" true])
              eq_refl) as [Hadd HaddOnActor].
  split.
  - exact (proj1 (Hadd (Some "blinded") (Samples.effectNamed "blinded") ""
                    false)).
  - exact (proj1 (HaddOnActor "blinded" (Samples.effectNamed "blinded") ""
                    false)).
Defined.



(** The claim as stated fails: called without an effect object,
    [addEffectOnToken] returns [undefined] although the name is found on
    the token's actor. *)
Lemma C9_counterexample :
  let e := Samples.labelled "e1" "Blinded" false in
  let w := Samples.world [e] in
  findEffectByNameOnToken (helpers := modelHelpers) "Blinded"
    "Scene.s1.Token.t1" w = (w, Ret (Some e))
  ∧ addEffectOnToken (helpers := modelHelpers) "Blinded" "Scene.s1.Token.t1"
      "" false None w = (w, Ret None).
Proof. split; reflexivity. Defined.

(** The theorem on a token whose actor has "Blinded". *)
Lemma C9_witness :
  let e := Samples.labelled "e1" "Blinded" false in
  let w := Samples.world [e] in
  addEffectOnToken (helpers := modelHelpers) "blinded" "Scene.s1.Token.t1"
    "" false (Some (Samples.effectNamed "blinded")) w = (w, Ret (Some e))
  ∧ addEffectOnActor (helpers := modelHelpers) "blinded" "Actor.a1"
      "" false (Some (Samples.effectNamed "blinded")) w = (w, Ret None).
Proof.
  intros e w.
  destruct (C9_duplicate_token_returns_found (helpers := modelHelpers) w
              "blinded" "" false) as (_ & Htoken & Hactor).
  split.
  - apply (Htoken "Scene.s1.Token.t1" "Actor.a1"
             (mkToken "t1" "Aria" (Some "Actor.a1") (Some "s1"))
             (Samples.aria [e]) (Samples.effectNamed "blinded") [] e []);
      try reflexivity.
    intros x Hx. by apply elem_of_nil in Hx.
  - apply (Hactor "Actor.a1" (Samples.aria [e])
             (Samples.effectNamed "blinded") e); try reflexivity.
    apply elem_of_cons. by left.
Defined.

(** The theorem at the failing input: an effect labelled "Blinded" and
    the name "blinded". *)
Lemma C4_witness :
  let e := Samples.labelled "e1" "Blinded" false in
  let w := Samples.world [e] in
  hasEffectAppliedOnActor (helpers := modelHelpers) "blinded" "Actor.a1"
    false w = (w, Ret true)
  ∧ findEffectByNameOnActor (helpers := modelHelpers) (Some "blinded")
      "Actor.a1" w = (w, Ret (Some e))
  ∧ removeEffectOnActor (helpers := modelHelpers) "blinded" "Actor.a1" w
    = (w, Ret None).
Proof.
  intros e w.
  apply (C4_removeEffectOnActor_exact_match_only (helpers := modelHelpers)
           w "Actor.a1" "Blinded" "blinded" (Samples.aria [e]) e);
    try reflexivity.
  discriminate.
Defined.

End HandlerFacts.

(** ** The positional-array variants *)

Module LegacyFacts.
Import Js Handler Legacy.

(** A rest parameter is an array: the guard never fires, and a variant
    is the call of its target with the destructured elements. *)
Lemma runArr_forwards {R} (this : Method → list JsVal → M R) (b : ArrBody)
  (args : list JsVal) :
  runArr this b args = this (target b) (destructure (arity b) args).
Proof. unfold runArr. simpl. by rewrite andb_false_r. Qed.

(** But for one, the variants of the handler call the method they are
    named after. *)
Lemma handlerArr_target (m : Method) :
  m ≠ m_updateActiveEffectFromNameOnToken → target (handlerArr m) = m.
Proof. by destruct m. Qed.

(** The variants of the API object all do. *)
Lemma apiArr_target (m : Method) (b : ArrBody) :
  apiArr m = Some b → target b = m.
Proof. destruct m; simpl; intros Hb; by simplify_eq. Qed.

(** C8, at the failing input. [updateActiveEffectFromNameOnTokenArr] of
    the handler calls [updateEffectFromNameOnToken], not
    [updateActiveEffectFromNameOnToken]. Given effect data that disables
    "Blinded", the method it is named after passes the data on to the
    host, which disables the effect; the variant treats the data as an
    effect object, converts it, and the effect stays enabled. *)
Theorem C8_updateActiveEffectFromNameOnTokenArr_wrong_target :
  target (handlerArr m_updateActiveEffectFromNameOnToken)
  = m_updateEffectFromNameOnToken
  ∧ ∀ other : Method → list JsVal → M JsVal,
      let w := Samples.world [Samples.labelled "e1" "Blinded" false] in
      let args :=
        [VString "Blinded"; VString "Scene.s1.Token.t1"; VString "";
         VBool false;
         VObject [("label", VString "Blinded"); ("disabled", VBool true)]] in
      let this := handlerThis (helpers := modelHelpers) other in
      let variant :=
        runArr this (handlerArr m_updateActiveEffectFromNameOnToken) args w in
      let base :=
        this m_updateActiveEffectFromNameOnToken (destructure 5 args) w in
      snd variant = Ret (VBool true)
      ∧ snd base = Ret (VBool true)
      ∧ d_disabled ∘ ae_data <$> effectsOf "Actor.a1" (fst variant) = [false]
      ∧ d_disabled ∘ ae_data <$> effectsOf "Actor.a1" (fst base) = [true]
      ∧ variant ≠ base.
Proof.
  split; [reflexivity|]. intros other w args this variant base.
  split; [reflexivity|]. split; [reflexivity|].
  split; [reflexivity|]. split; [reflexivity|].
  intros Heq.
  apply (f_equal (fun r => d_disabled ∘ ae_data <$> effectsOf "Actor.a1" (fst r)))
    in Heq.
  discriminate Heq.
Qed.

End LegacyFacts.

(** * Further properties *)

(** ** The status-effect name list, continued *)

Module ApiMoreFacts.
Import Api.

Lemma filter_all (P : string → Prop) `{∀ x, Decision (P x)}
  (l : list string) :
  (∀ y, y ∈ l → P y) → filter P l = l.
Proof.
  induction l as [|x r IH]; intros Hall; [done|].
  rewrite filter_cons_True by (apply Hall; apply elem_of_cons; by left).
  rewrite IH; [done|]. intros y Hy. apply Hall. apply elem_of_cons. by right.
Qed.

Lemma keepFirst_NoDup (l : list string) : NoDup l → keepFirst l = l.
Proof.
  induction l as [|x r IH]; intros Hnd; [done|].
  apply NoDup_cons in Hnd as [Hx Hnd]. simpl. rewrite IH by done.
  rewrite filter_all; [done|]. intros y Hy ->. done.
Qed.

Lemma keepFirst_filter (P : string → Prop) `{∀ x, Decision (P x)}
  (l : list string) :
  keepFirst (filter P l) = filter P (keepFirst l).
Proof.
  induction l as [|x r IH]; [done|]. simpl.
  rewrite !filter_cons. destruct (decide (P x)) as [Hx|Hx]; simpl.
  - rewrite IH. f_equal. rewrite !list_filter_filter.
    apply list_filter_iff. intros y. split; intros [? ?]; by split.
  - rewrite IH. rewrite list_filter_filter. apply list_filter_iff.
    intros y. split; [|by intros [? _]]. intros Hy. split; [done|].
    by intros ->.
Qed.

Lemma newSet_snoc (l : list string) (x : string) :
  newSet (l ++ [x]) = setAdd (newSet l) x.
Proof. unfold newSet. by rewrite fold_left_app. Qed.

Lemma settings_eta (g : Settings) : mkSettings (statusEffectNames g) = g.
Proof. by destruct g. Qed.

(** X1. On a stored list without duplicates, [addStatusEffect] leaves
    the list alone when it has the name, and puts the name last when it
    has not. *)
Theorem addStatusEffect_appends_if_absent (name : string) (g : Settings) :
  NoDup (statusEffectNames g) →
  statusEffectNames (addStatusEffect name g)
  = if decide (name ∈ statusEffectNames g)
    then statusEffectNames g
    else statusEffectNames g ++ [name].
Proof.
  intros Hnd. unfold addStatusEffect, settingsSet. simpl.
  rewrite newSet_snoc, ApiFacts.newSet_keepFirst, keepFirst_NoDup by done.
  reflexivity.
Qed.

Lemma addStatusEffect_appends_if_absent_witness :
  statusEffectNames (addStatusEffect "b" (mkSettings ["a"; "b"]))
  = ["a"; "b"]
  ∧ statusEffectNames (addStatusEffect "c" (mkSettings ["a"; "b"]))
    = ["a"; "b"; "c"].
Proof.
  split.
  - apply (addStatusEffect_appends_if_absent "b" (mkSettings ["a"; "b"])).
    by compute_done.
  - apply (addStatusEffect_appends_if_absent "c" (mkSettings ["a"; "b"])).
    by compute_done.
Defined.

(** X2. [addStatusEffect] is idempotent, whatever the stored list. *)
Theorem addStatusEffect_idempotent (name : string) (g : Settings) :
  addStatusEffect name (addStatusEffect name g) = addStatusEffect name g.
Proof.
  unfold addStatusEffect at 1. unfold settingsSet. f_equal.
  rewrite newSet_snoc, ApiFacts.newSet_keepFirst.
  set (stored := statusEffectNames (addStatusEffect name g)).
  assert (NoDup stored ∧ name ∈ stored) as [Hnd Hin].
  { subst stored. unfold addStatusEffect, settingsSet; simpl.
    rewrite ApiFacts.newSet_keepFirst. split.
    - apply ApiFacts.NoDup_keepFirst.
    - apply ApiFacts.elem_of_keepFirst, elem_of_app. right.
      by apply list_elem_of_singleton. }
  rewrite keepFirst_NoDup by done. unfold setAdd.
  destruct (decide (name ∈ stored)); [|done].
  subst stored. by unfold addStatusEffect, settingsSet.
Qed.

(** X3. Adding a name that a duplicate-free stored list does not have and
    removing it again restores the settings. *)
Theorem removeStatusEffect_undoes_add (name : string) (g : Settings) :
  NoDup (statusEffectNames g) →
  name ∉ statusEffectNames g →
  removeStatusEffect name (addStatusEffect name g) = g.
Proof.
  intros Hnd Hnotin. unfold removeStatusEffect, settingsSet.
  unfold addStatusEffect at 1. unfold settingsSet, statusEffectNames at 1.
  simpl.
  rewrite newSet_snoc, ApiFacts.newSet_keepFirst, keepFirst_NoDup by done.
  unfold setAdd.
  destruct (decide (name ∈ statusEffectNames g)); [done|].
  rewrite filter_app, filter_cons_False by (intros Hn; by apply Hn).
  rewrite filter_nil, app_nil_r, filter_all; [apply settings_eta|].
  intros y Hy ->. done.
Qed.

Lemma removeStatusEffect_undoes_add_witness :
  removeStatusEffect "c" (addStatusEffect "c" (mkSettings ["a"; "b"]))
  = mkSettings ["a"; "b"].
Proof.
  apply (removeStatusEffect_undoes_add "c" (mkSettings ["a"; "b"]));
    by compute_done.
Defined.

(** X4. Removing one name and adding another can be done in either
    order. *)
Theorem removeStatusEffect_addStatusEffect_commute (n m : string)
  (g : Settings) :
  n ≠ m →
  removeStatusEffect m (addStatusEffect n g)
  = addStatusEffect n (removeStatusEffect m g).
Proof.
  intros Hnm. unfold removeStatusEffect, addStatusEffect, settingsSet,
    statusEffectNames, settingsGet; simpl. f_equal.
  rewrite !ApiFacts.newSet_keepFirst, <- keepFirst_filter. f_equal.
  by rewrite filter_app, filter_cons_True.
Qed.

Lemma removeStatusEffect_addStatusEffect_commute_witness :
  removeStatusEffect "a" (addStatusEffect "c" (mkSettings ["a"; "b"; "a"]))
  = addStatusEffect "c" (removeStatusEffect "a" (mkSettings ["a"; "b"; "a"])).
Proof.
  by apply (removeStatusEffect_addStatusEffect_commute "c" "a").
Defined.

(** X5. Adding or removing a name does not change whether another name
    is a status effect. *)
Theorem isStatusEffect_other_name (n m : string) (g : Settings) :
  m ≠ n →
  isStatusEffect m (addStatusEffect n g) = isStatusEffect m g
  ∧ isStatusEffect m (removeStatusEffect n g) = isStatusEffect m g.
Proof.
  intros Hmn. unfold isStatusEffect, addStatusEffect, removeStatusEffect,
    settingsSet, statusEffectNames, settingsGet; simpl. split.
  - apply bool_decide_ext.
    rewrite ApiFacts.newSet_keepFirst, ApiFacts.elem_of_keepFirst,
      elem_of_app, list_elem_of_singleton. tauto.
  - apply bool_decide_ext. rewrite list_elem_of_filter. tauto.
Qed.

Lemma isStatusEffect_other_name_witness :
  isStatusEffect "a" (addStatusEffect "b" (mkSettings ["a"])) = true
  ∧ isStatusEffect "a" (removeStatusEffect "b" (mkSettings ["a"])) = true.
Proof.
  by apply (isStatusEffect_other_name "b" "a" (mkSettings ["a"])).
Defined.

End ApiMoreFacts.

(** ** The effect handler, continued *)

Module HandlerMoreFacts.
Import Js Handler HandlerFacts.

(** Resolving a token, its actor key and the actor in the goal. *)
Ltac resolve Ht Hk Ha :=
  do 4 (rewrite ?Ht, ?Hk, ?Ha; simpl).

Section Facts.
Context {helpers : Helpers}.

(** X6. Unless [alwaysDelete] is set, the toggle-by-id methods write the
    negation of the current [disabled] flag whatever [forceEnabled] and
    [forceDisabled] are: the two flags never change the outcome. *)
Theorem toggle_force_flags_never_matter (effectId uuid : string)
  (forceEnabled forceDisabled : bool) (w : World) :
  toggleEffectFromIdOnActor effectId uuid false forceEnabled forceDisabled w
  = toggleEffectFromIdOnActor effectId uuid false false false w
  ∧ toggleEffectFromIdOnToken effectId uuid false forceEnabled forceDisabled w
    = toggleEffectFromIdOnToken effectId uuid false false false w.
Proof.
  split.
  - unfold toggleEffectFromIdOnActor. run.
    destruct (actors w !! uuid) as [a|]; simpl; [|done].
    destruct (List.find (hasId effectId) (actor_effects a)) as [e|]; simpl;
      [|done].
    unfold toggleDisabled.
    by destruct forceEnabled, forceDisabled, (d_disabled (ae_data e)).
  - unfold toggleEffectFromIdOnToken, tokenActorEffects, tokenActor. run.
    destruct (tokens w !! uuid) as [t|]; simpl; [|done].
    destruct (token_actor t) as [k|]; simpl; [|done].
    destruct (actors w !! k) as [a|]; simpl; [|done].
    destruct (List.find (hasId effectId) (actor_effects a)) as [e|]; simpl;
      [|done].
    unfold fmap, M_fmap, bind, toggleDisabled.
    by destruct forceEnabled, forceDisabled, (d_disabled (ae_data e)).
Qed.

(** X7. On a uuid that resolves to no actor, the by-id test answers
    [false], the lookup of a falsy name and the additions without an
    effect return [undefined], and everything else fails with a
    [TypeError]; nothing calls the host. *)
Theorem unresolved_actor_uuid (w : World) (uuid : string) :
  actors w !! uuid = None →
  (∀ id b, hasEffectAppliedFromIdOnActor id uuid b w = (w, Ret false))
  ∧ (∀ n, hasEffectApplied n uuid w = (w, Throw TypeError))
  ∧ (∀ n b, hasEffectAppliedOnActor n uuid b w = (w, Throw TypeError))
  ∧ (∀ en, findEffectByNameOnActor en uuid w
           = (w, if truthyO (localizeO en) then Throw TypeError
                 else Ret None))
  ∧ (∀ n, removeEffect n uuid w = (w, Throw TypeError))
  ∧ (∀ n, removeEffectOnActor n uuid w = (w, Throw TypeError))
  ∧ (∀ id, removeEffectFromIdOnActor id uuid w = (w, Throw TypeError))
  ∧ (∀ id ad fe fd,
       toggleEffectFromIdOnActor id uuid ad fe fd w = (w, Throw TypeError))
  ∧ (∀ n o ov, addEffectOnActor n uuid o ov None w = (w, Ret None))
  ∧ (∀ n o ov eff,
       addEffectOnActor n uuid o ov (Some eff) w = (w, Throw TypeError))
  ∧ (∀ en d o ov, addEffect en d uuid o ov w = (w, Throw TypeError))
  ∧ addActiveEffectOnActor uuid None w = (w, Ret None)
  ∧ (∀ d, addActiveEffectOnActor uuid (Some d) w = (w, Throw TypeError))
  ∧ (∀ n ov rest d,
       toggleEffect n ov (uuid :: rest) d w = (w, Throw TypeError)).
Proof.
  intros Hno. repeat split.
  - intros id b. unfold hasEffectAppliedFromIdOnActor. run. by rewrite Hno.
  - intros n. unfold hasEffectApplied. run. by rewrite Hno.
  - intros n b. unfold hasEffectAppliedOnActor. run. by rewrite Hno.
  - intros en. unfold findEffectByNameOnActor. run. rewrite Hno.
    destruct (localizeO en) as [n|]; simpl; [|done]. by destruct (truthyS n).
  - intros n. unfold removeEffect. run. by rewrite Hno.
  - intros n. unfold removeEffectOnActor. run. by rewrite Hno.
  - intros id. unfold removeEffectFromIdOnActor. run. rewrite Hno.
    by destruct (truthyS id).
  - intros id ad fe fd. unfold toggleEffectFromIdOnActor. run.
    by rewrite Hno.
  - intros n o ov eff. unfold addEffectOnActor, findEffectByNameOnActor. run.
    rewrite Hno. destruct (truthyS o); simpl; [|done].
    destruct (truthyS (localize (localize n))); simpl; [|done].
    run. by rewrite Hno.
  - intros en d o ov.
    unfold addEffect, _findEffectByName, findEffectByNameOnActor. run.
    rewrite Hno. destruct en as [n|]; simpl.
    + destruct (truthyS n) eqn:Hn; simpl; [done|].
      destruct (truthyS o); simpl; [|done].
      destruct d as [d|]; simpl; [|done].
      destruct (truthyS (localize n)); simpl; [|done].
      run. by rewrite Hno.
    + destruct (truthyS o); simpl; [|done]. by destruct d.
  - intros d. unfold addActiveEffectOnActor. run. rewrite Hno.
    by destruct (truthy (getProp "origin" d)).
  - intros n ov rest d. unfold toggleEffect. simpl.
    unfold toggleEffect_step, hasEffectApplied. run. by rewrite Hno.
Qed.

(** X8. On a uuid that resolves to no token, every token method that
    resolves the token fails with a [TypeError], the lookup of an empty
    name included; the ones that return [undefined] are those that
    return before resolving it: a removal with an empty id or without
    an id list, and an addition without an effect. On a token without an
    actor the by-id test answers [false], and the removal of an empty id
    list and the addition of effect data fail without a host call. *)
Theorem unresolved_token_uuid (w : World) (uuid : string) :
  (tokens w !! uuid = None →
   (∀ n b, hasEffectAppliedOnToken n uuid b w = (w, Throw TypeError))
   ∧ (∀ id b, hasEffectAppliedFromIdOnToken id uuid b w
              = (w, Throw TypeError))
   ∧ (∀ n, findEffectByNameOnToken n uuid w = (w, Throw TypeError))
   ∧ (∀ n, removeEffectOnToken n uuid w = (w, Throw TypeError))
   ∧ (∀ id, removeEffectFromIdOnToken id uuid w
            = (w, if truthyS id then Throw TypeError else Ret None))
   ∧ removeEffectFromIdOnTokenMultiple None uuid w = (w, Ret None)
   ∧ (∀ ids, removeEffectFromIdOnTokenMultiple (Some ids) uuid w
             = (w, Throw TypeError))
   ∧ (∀ id ad fe fd,
        toggleEffectFromIdOnToken id uuid ad fe fd w = (w, Throw TypeError))
   ∧ (∀ n o ov, addEffectOnToken n uuid o ov None w = (w, Ret None))
   ∧ (∀ n o ov eff,
        addEffectOnToken n uuid o ov (Some eff) w = (w, Throw TypeError))
   ∧ addActiveEffectOnToken uuid None w = (w, Ret None)
   ∧ (∀ d, addActiveEffectOnToken uuid (Some d) w = (w, Throw TypeError))
   ∧ (∀ n o ov d,
        updateEffectFromNameOnToken n uuid o ov d w = (w, Throw TypeError))
   ∧ (∀ id o ov d,
        updateActiveEffectFromIdOnToken id uuid o ov d w
        = (w, Throw TypeError)))
  ∧ (∀ t, tokens w !! uuid = Some t → token_actor t = None →
     (∀ id b, hasEffectAppliedFromIdOnToken id uuid b w = (w, Ret false))
     ∧ (∀ n b, hasEffectAppliedOnToken n uuid b w = (w, Throw TypeError))
     ∧ (∀ n, findEffectByNameOnToken n uuid w
             = (w, if truthyS (localize n) then Throw TypeError
                   else Ret None))
     ∧ (∀ ids, removeEffectFromIdOnTokenMultiple (Some ids) uuid w
               = (w, Throw TypeError))
     ∧ (∀ d, addActiveEffectOnToken uuid (Some d) w = (w, Throw TypeError))).
Proof.
  split.
  - intros Hno. repeat split.
    + intros n b. unfold hasEffectAppliedOnToken. run. by rewrite Hno.
    + intros id b. unfold hasEffectAppliedFromIdOnToken. run. by rewrite Hno.
    + intros n. unfold findEffectByNameOnToken. run. by rewrite Hno.
    + intros n. unfold removeEffectOnToken. run. by rewrite Hno.
    + intros id. unfold removeEffectFromIdOnToken. run.
      destruct (truthyS id); [|done]. by rewrite Hno.
    + intros ids. unfold removeEffectFromIdOnTokenMultiple. run.
      by rewrite Hno.
    + intros id ad fe fd. unfold toggleEffectFromIdOnToken. run.
      by rewrite Hno.
    + intros n o ov eff. unfold addEffectOnToken, findEffectByNameOnToken.
      run. rewrite Hno. destruct (truthyS o); simpl; [|done].
      run. by rewrite Hno.
    + intros d. unfold addActiveEffectOnToken. run. rewrite Hno.
      by destruct (truthy (getProp "origin" d)).
    + intros n o ov d. unfold updateEffectFromNameOnToken. run.
      by rewrite Hno.
    + intros id o ov d. unfold updateActiveEffectFromIdOnToken. run.
      by rewrite Hno.
  - intros t Ht Hactor. repeat split.
    + intros id b. unfold hasEffectAppliedFromIdOnToken, tokenActorEffects.
      run. rewrite Ht. simpl. by rewrite Hactor.
    + intros n b. unfold hasEffectAppliedOnToken, tokenActorEffects.
      run. rewrite Ht. simpl. by rewrite Hactor.
    + intros n. unfold findEffectByNameOnToken, tokenActorEffects.
      run. rewrite Ht. simpl. rewrite Hactor. simpl.
      by destruct (truthyS (localize n)).
    + intros ids.
      unfold removeEffectFromIdOnTokenMultiple, tokenActorEffects,
        deleteOnTokenActor, tokenActor.
      run. rewrite Ht. simpl. rewrite Hactor. simpl. by destruct ids.
    + intros d. unfold addActiveEffectOnToken, tokenActor, tokenOrigin. run.
      rewrite Ht. simpl.
      destruct (truthy (getProp "origin" d)); simpl;
        rewrite ?Hactor; simpl; done.
Qed.

Lemma findByName_loop_nameless (n : string) (l : list ActiveEffect) :
  (∀ e, e ∈ l → truthyO (ae_name e) = false) →
  findByName_loop dataLabel n l = findByName_loop nameOrLabel n l.
Proof.
  induction l as [|x r IH]; intros Hall; [done|]. simpl.
  assert (nameOrLabel x = dataLabel x) as Hx.
  { unfold nameOrLabel, dataLabel.
    by rewrite (Hall x) by (apply elem_of_cons; by left). }
  unfold nameMatches. rewrite Hx.
  rewrite IH; [done|]. intros e He. apply Hall. apply elem_of_cons. by right.
Qed.

(** X9. For a token whose actor is stored under [k], the token methods
    are the actor methods on [k]: the tests, the removals by name and by
    id and the addition of effect data give the same outcome and the
    same world; the toggle by id does for an id that some effect
    carries; the lookup by name does when no document has a name of its
    own (the token lookup compares labels only). *)
Theorem token_methods_act_on_token_actor (w : World) (uuid k : string)
  (t : Token) (a : Actor) :
  tokens w !! uuid = Some t →
  token_actor t = Some k →
  actors w !! k = Some a →
  (∀ n b, hasEffectAppliedOnToken n uuid b w
          = hasEffectAppliedOnActor n k b w)
  ∧ (∀ id b, hasEffectAppliedFromIdOnToken id uuid b w
             = hasEffectAppliedFromIdOnActor id k b w)
  ∧ (∀ n, removeEffectOnToken n uuid w = removeEffectOnActor n k w)
  ∧ (∀ id, removeEffectFromIdOnToken id uuid w
           = removeEffectFromIdOnActor id k w)
  ∧ (∀ d, addActiveEffectOnToken uuid d w = addActiveEffectOnActor k d w)
  ∧ (∀ id ad fe fd,
       is_Some (List.find (hasId id) (actor_effects a)) →
       toggleEffectFromIdOnToken id uuid ad fe fd w
       = let r := toggleEffectFromIdOnActor id k ad fe fd w in
         (fst r, match snd r with
                 | Ret b => Ret (Some b)
                 | Throw err => Throw err
                 end))
  ∧ (∀ n,
       (∀ e, e ∈ actor_effects a → truthyO (ae_name e) = false) →
       findEffectByNameOnToken n uuid w
       = findEffectByNameOnActor (Some n) k w).
Proof.
  intros Ht Hk Ha. repeat split.
  - intros n b. unfold hasEffectAppliedOnToken, hasEffectAppliedOnActor,
      tokenActorEffects. run. by resolve Ht Hk Ha.
  - intros id b.
    unfold hasEffectAppliedFromIdOnToken, hasEffectAppliedFromIdOnActor,
      tokenActorEffects. run. by resolve Ht Hk Ha.
  - intros n. unfold removeEffectOnToken, removeEffectOnActor,
      tokenActorEffects, deleteOnTokenActor, tokenActor. run.
    resolve Ht Hk Ha.
    destruct (List.find (labelIs (localize n)) (actor_effects a)); [|done].
    by resolve Ht Hk Ha.
  - intros id. unfold removeEffectFromIdOnToken, removeEffectFromIdOnActor,
      tokenActorEffects, deleteOnTokenActor, tokenActor. run.
    rewrite Ha. destruct (truthyS id); [|done]. resolve Ht Hk Ha.
    destruct (List.find (hasId id) (actor_effects a)); [|done].
    by resolve Ht Hk Ha.
  - intros d. unfold addActiveEffectOnToken, addActiveEffectOnActor,
      tokenActor, tokenOrigin. run. destruct d as [d|]; [|done].
    resolve Ht Hk Ha.
    destruct (truthy (getProp "origin" d)); by resolve Ht Hk Ha.
  - intros id ad fe fd [e He].
    unfold toggleEffectFromIdOnToken, toggleEffectFromIdOnActor,
      tokenActorEffects, tokenActor. run.
    resolve Ht Hk Ha. rewrite He. resolve Ht Hk Ha. destruct ad; simpl.
    + unfold docDelete.
      by destruct (permits w (DocDelete k (ae_id e))).
    + unfold fmap, M_fmap, bind.
      by destruct (toggleDisabled k fe fd e w) as [w' [b|err]].
  - intros n Hnames. unfold findEffectByNameOnToken, findEffectByNameOnActor,
      tokenActorEffects. run. resolve Ht Hk Ha.
    destruct (truthyS (localize n)); simpl; [|done].
    by rewrite findByName_loop_nameless.
Qed.

Lemma existsb_none {A} (P : A → bool) (l : list A) :
  (∀ x, x ∈ l → P x = false) → existsb P l = false.
Proof.
  induction l as [|x r IH]; intros Hall; [done|]. simpl.
  rewrite (Hall x) by (apply elem_of_cons; by left).
  apply IH. intros y Hy. apply Hall. apply elem_of_cons. by right.
Qed.

(** X10. For an id that no effect of the actor carries, nothing calls
    the host: the removals by id, the toggle by id on a token and the
    updates by id return [undefined] and the tests answer [false], but
    the toggle by id on an actor fails with a [TypeError], and so does
    the removal by id of the other copy of the handler. *)
Theorem unknown_effect_id (w : World) (uuid k id : string) (t : Token)
  (a : Actor) :
  tokens w !! uuid = Some t →
  token_actor t = Some k →
  actors w !! k = Some a →
  (∀ x, x ∈ actor_effects a → hasId id x = false) →
  (∀ b, hasEffectAppliedFromIdOnActor id k b w = (w, Ret false))
  ∧ removeEffectFromIdOnActor id k w = (w, Ret None)
  ∧ removeEffectFromIdOnToken id uuid w = (w, Ret None)
  ∧ (∀ ad fe fd, toggleEffectFromIdOnToken id uuid ad fe fd w = (w, Ret None))
  ∧ (∀ ad fe fd,
       toggleEffectFromIdOnActor id k ad fe fd w = (w, Throw TypeError))
  ∧ (∀ o ov d, updateEffectFromIdOnToken id uuid o ov d w = (w, Ret None))
  ∧ (∀ o ov d,
       updateActiveEffectFromIdOnToken id uuid o ov d w = (w, Ret None))
  ∧ (truthyS id = true →
     Part000.removeEffectFromIdOnActor id k w = (w, Throw TypeError)).
Proof.
  intros Ht Hk Ha Hno. pose proof Hno as Hfind.
  apply find_none_iff in Hfind. repeat split.
  - intros b. unfold hasEffectAppliedFromIdOnActor. run. rewrite Ha. simpl.
    do 2 f_equal. apply existsb_none. intros x Hx. unfold appliedIdTest.
    rewrite (Hno x) by done. by destruct b.
  - unfold removeEffectFromIdOnActor. run. rewrite Ha.
    destruct (truthyS id); simpl; by rewrite ?Hfind.
  - unfold removeEffectFromIdOnToken, tokenActorEffects. run.
    destruct (truthyS id); [|done]. resolve Ht Hk Ha. by rewrite Hfind.
  - intros ad fe fd. unfold toggleEffectFromIdOnToken, tokenActorEffects. run.
    resolve Ht Hk Ha. by rewrite Hfind.
  - intros ad fe fd. unfold toggleEffectFromIdOnActor. run.
    rewrite Ha. simpl. rewrite Hfind. by destruct ad.
  - intros o ov d. unfold updateEffectFromIdOnToken, tokenActorEffects. run.
    resolve Ht Hk Ha. by rewrite Hfind.
  - intros o ov d.
    unfold updateActiveEffectFromIdOnToken, tokenActorEffects. run.
    resolve Ht Hk Ha. by rewrite Hfind.
  - intros Hid. unfold Part000.removeEffectFromIdOnActor. run.
    rewrite Hid, Ha. simpl. by rewrite Hfind.
Qed.

Lemma alter_effects_lookup (w : World) (k : string) (a : Actor)
  (l : list ActiveEffect) :
  actors w !! k = Some a →
  alter (λ a, setEffects a l) k (actors w) !! k = Some (setEffects a l).
Proof. intros Ha. by rewrite lookup_alter_eq, Ha. Qed.

(** X11. After [removeEffectFromIdOnActor] has removed the effect with
    the given id, [hasEffectAppliedFromIdOnActor] answers [false] for
    that id, disabled effects included or not. *)
Theorem removeEffectFromIdOnActor_then_not_applied (w : World)
  (uuid id : string) (a : Actor) (e : ActiveEffect) :
  actors w !! uuid = Some a →
  truthyS id = true →
  List.find (hasId id) (actor_effects a) = Some e →
  permits w (DeleteEmbedded uuid [ae_id e]) = true →
  let w' := fst (removeEffectFromIdOnActor id uuid w) in
  ∀ b, hasEffectAppliedFromIdOnActor id uuid b w' = (w', Ret false).
Proof.
  intros Ha Hid He Hp w' b. subst w'.
  pose proof (find_elem_of _ _ _ He) as [_ Heid].
  unfold hasId in Heid. apply bool_decide_eq_true in Heid.
  unfold removeEffectFromIdOnActor, deleteEmbeddedDocuments. run.
  rewrite Hid, Ha. simpl. rewrite He. simpl. rewrite Hp. simpl.
  unfold hasEffectAppliedFromIdOnActor. run.
  rewrite (alter_effects_lookup _ _ a) by done. simpl.
  do 2 f_equal. apply existsb_none. intros x Hx.
  apply list_elem_of_In, filter_In in Hx as [_ Hx].
  apply negb_true_iff, bool_decide_eq_false in Hx.
  rewrite list_elem_of_singleton, Heid in Hx.
  unfold appliedIdTest, hasId. rewrite bool_decide_eq_false_2 by done.
  by destruct b.
Qed.

(** X12. [addActiveEffectOnActor] makes one call of the host's create
    API whatever effects the actor has: it does not look for a
    duplicate. The data goes to the host as given when it has an
    origin, and with the origin [Actor.<id>] otherwise. *)
Theorem addActiveEffectOnActor_always_creates (w : World) (uuid : string)
  (a : Actor) (data : JsObj) :
  actors w !! uuid = Some a →
  HandlerSpec.creates w uuid
    (if truthy (getProp "origin" data) then data
     else setProp "origin" (VString ("Actor." +:+ actor_id a)) data)
    (addActiveEffectOnActor uuid (Some data) w).
Proof.
  intros Ha. unfold addActiveEffectOnActor.
  rewrite (mbind_ret _ _ w w (Some a)) by (run; by rewrite Ha).
  destruct (truthy (getProp "origin" data)); simpl.
  - rewrite (mbind_ret _ _ w w data) by reflexivity.
    rewrite (mbind_ret _ _ w w a) by reflexivity.
    by apply (create_creates w uuid a).
  - rewrite (mbind_ret _ _ w w
               (setProp "origin" (VString ("Actor." +:+ actor_id a)) data))
      by reflexivity.
    rewrite (mbind_ret _ _ w w a) by reflexivity.
    by apply (create_creates w uuid a).
Qed.

Lemma find_hasId_is_Some (l : list ActiveEffect) (x : ActiveEffect) :
  x ∈ l → notNot (List.find (hasId (ae_id x)) l) = true.
Proof.
  intros Hx. destruct (List.find (hasId (ae_id x)) l) eqn:Hf; [done|].
  apply find_none_iff with (x := x) in Hf; [|done].
  unfold hasId in Hf. by rewrite bool_decide_eq_true_2 in Hf.
Qed.

Lemma elem_of_presentIds (l : list ActiveEffect) (ids : list string)
  (x : ActiveEffect) :
  x ∈ l → ae_id x ∈ presentIds l ids ↔ ae_id x ∈ ids.
Proof.
  intros Hx. unfold presentIds. rewrite !list_elem_of_In, filter_In.
  rewrite (find_hasId_is_Some l x Hx). tauto.
Qed.

Lemma filter_requested (l0 l : list ActiveEffect) (ids : list string) :
  (∀ x, x ∈ l → x ∈ l0) →
  List.filter (fun e => negb (bool_decide (ae_id e ∈ presentIds l0 ids))) l
  = filter (λ x, ae_id x ∉ ids) l.
Proof.
  induction l as [|x r IH]; intros Hsub; [done|]. simpl.
  rewrite filter_cons, IH
    by (intros y Hy; apply Hsub; apply elem_of_cons; by right).
  assert (x ∈ l0) as Hx by (apply Hsub; apply elem_of_cons; by left).
  destruct (decide (ae_id x ∉ ids)) as [Hn|Hn].
  - rewrite bool_decide_eq_false_2; [done|].
    by rewrite elem_of_presentIds.
  - rewrite bool_decide_eq_true_2; [done|].
    rewrite elem_of_presentIds by done.
    by destruct (decide (ae_id x ∈ ids)).
Qed.

Lemma omap_presentIds (l : list ActiveEffect) (ids : list string) :
  omap (fun i => List.find (hasId i) l) (presentIds l ids)
  = omap (fun i => List.find (hasId i) l) ids.
Proof.
  unfold presentIds. induction ids as [|i r IH]; [done|]. simpl.
  destruct (List.find (hasId i) l) eqn:Hf; simpl.
  - rewrite Hf. f_equal. exact IH.
  - exact IH.
Qed.

(** X13. Given a list of ids, [removeEffectFromIdOnTokenMultiple] makes
    one call of the host's delete API with the requested ids that
    effects of the token's actor carry, in the order requested, also when
    there is none. When the host carries the call out, every effect with
    a requested id is gone, and the result is the effect of the first
    requested id that was found, alone. *)
Theorem removeEffectFromIdOnTokenMultiple_one_call (w : World)
  (uuid k : string) (t : Token) (a : Actor) (ids : list string) :
  tokens w !! uuid = Some t →
  token_actor t = Some k →
  actors w !! k = Some a →
  let r := removeEffectFromIdOnTokenMultiple (Some ids) uuid w in
  let c := DeleteEmbedded k (presentIds (actor_effects a) ids) in
  calls (fst r) = calls w ++ [c]
  ∧ if permits w c
    then effectsOf k (fst r)
         = filter (λ x, ae_id x ∉ ids) (actor_effects a)
         ∧ snd r
           = Ret (head (omap (fun i => List.find (hasId i) (actor_effects a))
                          ids))
    else effectsOf k (fst r) = actor_effects a ∧ snd r = Ret None.
Proof.
  intros Ht Hk Ha r c. subst r c.
  unfold removeEffectFromIdOnTokenMultiple, tokenActorEffects,
    deleteOnTokenActor, tokenActor, deleteEmbeddedDocuments. run.
  resolve Ht Hk Ha.
  destruct ids as [|i ids].
  - simpl. resolve Ht Hk Ha.
    destruct (permits w (DeleteEmbedded k [])); simpl.
    + split; [done|]. rewrite (effectsOf_putEffects _ _ _ a) by done.
      rewrite (effectsOf_actor k w a Ha). split; [|done].
      by apply (filter_requested (actor_effects a) _ []).
    + split; [done|]. unfold effectsOf. simpl. by rewrite Ha.
  - remember (i :: ids) as ids' eqn:Hids. simpl. resolve Ht Hk Ha.
    destruct (permits w (DeleteEmbedded k (presentIds (actor_effects a) ids')));
      simpl.
    + split; [done|]. rewrite (effectsOf_putEffects _ _ _ a) by done.
      rewrite (effectsOf_actor _ _ _ Ha). split.
      * by rewrite (filter_requested (actor_effects a)).
      * by rewrite omap_presentIds.
    + split; [done|]. unfold effectsOf. simpl. by rewrite Ha.
Qed.

Lemma getProp_setProp (key : string) (v : JsVal) (o : JsObj) :
  getProp key (setProp key v o) = v.
Proof.
  induction o as [|[k' v'] r IH]; simpl.
  - by rewrite String.eqb_refl.
  - destruct (String.eqb key k') eqn:Hk; simpl.
    + by rewrite String.eqb_refl.
    + by rewrite Hk.
Qed.

Lemma update_sendsUpdate (w : World) (k : string) (a : Actor)
  (e : ActiveEffect) (data : JsObj) :
  actors w !! k = Some a →
  HandlerSpec.sendsUpdate w k e
    ((updated ← updateEmbeddedDocuments k
                  (setProp "_id" (VString (ae_id e)) data);
      mret (Some true)) w).
Proof.
  intros Ha. unfold HandlerSpec.sendsUpdate, updateEmbeddedDocuments. run.
  destruct (permits w (UpdateEmbedded k (setProp "_id" (VString (ae_id e)) data)))
    eqn:Hp; simpl; (split; [done|]); eexists; (split; [reflexivity|]);
    (split; [apply getProp_setProp|]); rewrite Hp; done.
Qed.

(** X14. When an update method finds its effect (by label through
    [isStringEquals], or by id) and is given data, it makes one call of
    the host's update API, carrying the id of the effect found, and
    returns [true] whether or not the host carries the call out. When it
    finds none it returns [undefined] and makes no call. *)
Theorem update_returns_true_whatever_the_host (w : World) (uuid k : string)
  (t : Token) (a : Actor) (origin : string) (overlay : bool) (d : JsObj) :
  tokens w !! uuid = Some t →
  token_actor t = Some k →
  actors w !! k = Some a →
  (∀ n,
     match findByLabel n (actor_effects a) with
     | Some e =>
         HandlerSpec.sendsUpdate w k e
           (updateEffectFromNameOnToken n uuid origin overlay (Some d) w)
         ∧ HandlerSpec.sendsUpdate w k e
             (updateActiveEffectFromNameOnToken n uuid origin overlay
                (Some d) w)
     | None =>
         updateEffectFromNameOnToken n uuid origin overlay (Some d) w
         = (w, Ret None)
         ∧ updateActiveEffectFromNameOnToken n uuid origin overlay (Some d) w
           = (w, Ret None)
     end)
  ∧ (∀ id,
       match List.find (hasId id) (actor_effects a) with
       | Some e =>
           HandlerSpec.sendsUpdate w k e
             (updateEffectFromIdOnToken id uuid origin overlay (Some d) w)
           ∧ HandlerSpec.sendsUpdate w k e
               (updateActiveEffectFromIdOnToken id uuid origin overlay
                  (Some d) w)
       | None =>
           updateEffectFromIdOnToken id uuid origin overlay (Some d) w
           = (w, Ret None)
           ∧ updateActiveEffectFromIdOnToken id uuid origin overlay (Some d) w
             = (w, Ret None)
       end).
Proof.
  intros Ht Hk Ha. split.
  - intros n.
    unfold updateEffectFromNameOnToken, updateActiveEffectFromNameOnToken,
      tokenActorEffects, tokenActor, tokenOrigin. run. resolve Ht Hk Ha.
    destruct (findByLabel n (actor_effects a)) as [e|]; [|done].
    split; destruct (truthyS origin); simpl; resolve Ht Hk Ha;
      by apply (update_sendsUpdate w k a).
  - intros id.
    unfold updateEffectFromIdOnToken, updateActiveEffectFromIdOnToken,
      tokenActorEffects, tokenActor, tokenOrigin. run. resolve Ht Hk Ha.
    destruct (List.find (hasId id) (actor_effects a)) as [e|]; [|done].
    split; destruct (truthyS origin); simpl; resolve Ht Hk Ha;
      by apply (update_sendsUpdate w k a).
Qed.

(** X15. [updateActiveEffectFromNameOnToken] and
    [updateActiveEffectFromIdOnToken] ignore their [origin] and
    [overlay] arguments. *)
Theorem updateActiveEffect_ignores_origin_overlay (w : World)
  (key uuid origin origin' : string) (overlay overlay' : bool)
  (d : option JsObj) :
  updateActiveEffectFromNameOnToken key uuid origin overlay d w
  = updateActiveEffectFromNameOnToken key uuid origin' overlay' d w
  ∧ updateActiveEffectFromIdOnToken key uuid origin overlay d w
    = updateActiveEffectFromIdOnToken key uuid origin' overlay' d w.
Proof.
  split.
  - unfold updateActiveEffectFromNameOnToken, tokenActorEffects, tokenOrigin.
    run. destruct (tokens w !! uuid) as [t|]; simpl; [|done].
    destruct (token_actor t) as [k|]; simpl; [|done].
    destruct (actors w !! k) as [a|]; simpl; [|done].
    destruct (findByLabel key (actor_effects a)); [|done].
    by destruct (truthyS origin), (truthyS origin').
  - unfold updateActiveEffectFromIdOnToken, tokenActorEffects, tokenOrigin.
    run. destruct (tokens w !! uuid) as [t|]; simpl; [|done].
    destruct (token_actor t) as [k|]; simpl; [|done].
    destruct (actors w !! k) as [a|]; simpl; [|done].
    destruct (List.find (hasId key) (actor_effects a)); [|done].
    by destruct (truthyS origin), (truthyS origin').
Qed.

Lemma toggleEffect_step_without_data (w : World) (uuid : string) (a : Actor)
  (effectName : string) (overlay : bool) :
  actors w !! uuid = Some a →
  existsb (appliedTest false effectName) (actor_effects a) = false →
  toggleEffect_step effectName overlay None uuid w = (w, Throw TypeError).
Proof.
  intros Ha Happ. unfold toggleEffect_step.
  rewrite (mbind_ret _ _ w w _ (hasEffectApplied_returns w uuid _ a Ha)).
  rewrite Happ.
  rewrite (mbind_ret _ _ w w (Some a)) by (run; by rewrite Ha).
  rewrite (mbind_ret _ _ w w a) by reflexivity.
  unfold mbind, M_bind, bind.
  by rewrite (addEffect_without_data_throws w uuid a).
Qed.

Lemma forOf_app {A} (body : A → M unit) (l1 l2 : list A) (w : World) :
  forOf body (l1 ++ l2) w
  = match forOf body l1 w with
    | (w1, Ret _) => forOf body l2 w1
    | (w1, Throw err) => (w1, Throw err)
    end.
Proof.
  revert w. induction l1 as [|x r IH]; intros w; [done|]. simpl.
  unfold mbind, M_bind, bind.
  destruct (body x w) as [w1 [[]|err]]; [apply IH|done].
Qed.

(** X16. Called without effect data, [toggleEffect] fails with a
    [TypeError] at the first uuid whose actor does not have the effect
    applied when its turn comes. The world is then the one that the
    uuids before it have left, their removals included: no host call is
    made for that actor, nothing is created, and the uuids after it are
    not visited. *)
Theorem toggleEffect_without_data_throws (w : World)
  (before rest : list string) (uuid : string) (a : Actor)
  (effectName : string) (overlay : bool) :
  let r := toggleEffect effectName overlay before None w in
  snd r = Ret true →
  actors (fst r) !! uuid = Some a →
  existsb (appliedTest false effectName) (actor_effects a) = false →
  toggleEffect effectName overlay (before ++ uuid :: rest) None w
  = (fst r, Throw TypeError).
Proof.
  intros r Hret Ha Happ. subst r. revert Hret Ha.
  unfold toggleEffect, mbind, M_bind, bind. rewrite forOf_app.
  destruct (forOf (toggleEffect_step effectName overlay None) before w)
    as [w1 [[]|err]]; simpl; [|discriminate].
  intros _ Ha. unfold mbind, M_bind, bind.
  by rewrite (toggleEffect_step_without_data w1 uuid a).
Qed.

Lemma findByName_loop_snoc (nameOf : ActiveEffect → option string)
  (n : string) (l : list ActiveEffect) (x : ActiveEffect) :
  nameMatches nameOf n x = true →
  is_Some (findByName_loop nameOf n (l ++ [x])).
Proof.
  intros Hx. induction l as [|y r IH]; simpl.
  - rewrite Hx. by eexists.
  - destruct (nameMatches nameOf n y); [by eexists|exact IH].
Qed.

(** X17. When [addEffectOnActor] has created a document and the lookup
    by name recognises that document under the requested name, a second
    call for the same name, with any effect object, makes no host call
    and returns [undefined]. *)
Theorem addEffectOnActor_again_is_noop (w : World) (uuid : string)
  (a : Actor) (effectName origin : string) (overlay : bool) (effect : JsObj)
  (doc : ActiveEffect) :
  actors w !! uuid = Some a →
  let r := addEffectOnActor effectName uuid origin overlay (Some effect) w in
  snd r = Ret (Some doc) →
  truthyS (localize (localize effectName)) = true →
  nameMatches nameOrLabel (localize (localize effectName)) doc = true →
  ∀ origin' overlay' effect',
    addEffectOnActor effectName uuid origin' overlay' (Some effect') (fst r)
    = (fst r, Ret None).
Proof.
  intros Ha r Hdoc Hname Hmatch origin' overlay' effect'.
  pose proof (addEffectOnActor_outcome w uuid a effectName effect origin
                overlay Ha) as Hr. fold r in Hr.
  destruct (HandlerSpec.lookupOnActor (Some (localize effectName))
              (actor_effects a)) eqn:Hl.
  { rewrite Hr in Hdoc. discriminate Hdoc. }
  destruct Hr as (data & _ & Hsame & Hres).
  destruct (permits w (CreateEmbedded uuid data)); destruct Hres as [Hret Heff];
    [|rewrite Hret in Hdoc; discriminate Hdoc].
  rewrite Hret in Hdoc. injection Hdoc as Hdoc.
  destruct (sameElsewhere_is_Some uuid uuid w (fst r) Hsame) as [a' Ha'];
    [by eexists|].
  rewrite (effectsOf_actor _ _ _ Ha'), (effectsOf_actor _ _ _ Ha), Hdoc in Heff.
  pose proof (addEffectOnActor_outcome (fst r) uuid a' effectName effect'
                origin' overlay' Ha') as Hr'. simpl in Hr'.
  unfold HandlerSpec.lookupOnActor in Hr'. simpl in Hr'.
  rewrite Hname, Heff in Hr'.
  destruct (findByName_loop_snoc nameOrLabel
              (localize (localize effectName)) (actor_effects a) doc Hmatch)
    as [found Hfound].
  by rewrite Hfound in Hr'.
Qed.

Lemma alter_setEffects_back (m : gmap string Actor) (k : string) (a : Actor)
  (l : list ActiveEffect) :
  m !! k = Some a →
  alter (λ x, setEffects x (actor_effects a)) k
    (alter (λ x, setEffects x l) k m) = m.
Proof.
  intros Ha. apply map_eq. intros k'. destruct (decide (k' = k)) as [->|Hne].
  - rewrite !lookup_alter_eq, Ha. simpl. by destruct a.
  - by rewrite !lookup_alter_ne.
Qed.

Lemma find_hasId_snoc (l : list ActiveEffect) (doc : ActiveEffect) :
  (∀ x, x ∈ l → ae_id x ≠ ae_id doc) →
  List.find (hasId (ae_id doc)) (l ++ [doc]) = Some doc.
Proof.
  induction l as [|x r IH]; intros Hfresh; simpl.
  - unfold hasId. by rewrite bool_decide_eq_true_2.
  - unfold hasId at 1.
    rewrite bool_decide_eq_false_2
      by (apply Hfresh; apply elem_of_cons; by left).
    apply IH. intros y Hy. apply Hfresh. apply elem_of_cons. by right.
Qed.

Lemma filter_out_snoc (l : list ActiveEffect) (doc : ActiveEffect) :
  (∀ x, x ∈ l → ae_id x ≠ ae_id doc) →
  List.filter (fun e => negb (bool_decide (ae_id e ∈ [ae_id doc])))
    (l ++ [doc]) = l.
Proof.
  induction l as [|x r IH]; intros Hfresh; simpl.
  - rewrite bool_decide_eq_true_2; [done|]. by apply list_elem_of_singleton.
  - rewrite bool_decide_eq_false_2.
    + simpl. f_equal. apply IH. intros y Hy. apply Hfresh.
      apply elem_of_cons. by right.
    + rewrite list_elem_of_singleton. apply Hfresh. apply elem_of_cons.
      by left.
Qed.

Lemma remove_last_by_id (w1 : World) (uuid : string) (a1 : Actor)
  (l : list ActiveEffect) (doc : ActiveEffect) :
  actors w1 !! uuid = Some a1 →
  actor_effects a1 = l ++ [doc] →
  (∀ x, x ∈ l → ae_id x ≠ ae_id doc) →
  truthyS (ae_id doc) = true →
  permits w1 (DeleteEmbedded uuid [ae_id doc]) = true →
  let r2 := removeEffectFromIdOnActor (ae_id doc) uuid w1 in
  snd r2 = Ret (Some doc)
  ∧ actors (fst r2) = alter (λ x, setEffects x l) uuid (actors w1).
Proof.
  intros Ha1 Heff Hfresh Hid Hp r2. subst r2.
  pose proof (find_hasId_snoc l doc Hfresh) as Hfind.
  unfold removeEffectFromIdOnActor, deleteEmbeddedDocuments. run.
  rewrite Hid, Ha1. simpl. rewrite Heff, Hfind. simpl. rewrite Hp. simpl.
  unfold effectsOf. rewrite Ha1, Heff, Hfind. simpl.
  by rewrite (filter_out_snoc l doc Hfresh).
Qed.

Lemma addActiveEffectOnActor_result (w : World) (uuid : string) (a : Actor)
  (data : JsObj) :
  actors w !! uuid = Some a →
  ∃ d,
    addActiveEffectOnActor uuid (Some data) w
    = if permits w (CreateEmbedded uuid d)
      then (putEffects uuid
              (actor_effects a ++ [docOfData (mkId (nextId w)) d])
              (bumpId (logCall (CreateEmbedded uuid d) w)),
            Ret (Some (docOfData (mkId (nextId w)) d)))
      else (logCall (CreateEmbedded uuid d) w, Ret None).
Proof.
  intros Ha. unfold addActiveEffectOnActor, createEmbeddedDocuments. run.
  rewrite Ha. simpl.
  destruct (truthy (getProp "origin" data)); simpl;
    rewrite (effectsOf_actor _ _ _ Ha).
  - exists data. by destruct (permits w (CreateEmbedded uuid data)).
  - exists (setProp "origin" (VString ("Actor." +:+ actor_id a)) data).
    by destruct (permits w _).
Qed.

(** X18. When the host draws an id that no effect of the actor carries,
    removing by id the document that [addActiveEffectOnActor] has just
    created returns that document and leaves every actor as it was
    before the addition. *)
Theorem removeEffectFromIdOnActor_undoes_addActiveEffectOnActor (w : World)
  (uuid : string) (a : Actor) (data : JsObj) (doc : ActiveEffect) :
  actors w !! uuid = Some a →
  (∀ x, x ∈ actor_effects a → ae_id x ≠ mkId (nextId w)) →
  let r1 := addActiveEffectOnActor uuid (Some data) w in
  snd r1 = Ret (Some doc) →
  permits w (DeleteEmbedded uuid [ae_id doc]) = true →
  let r2 := removeEffectFromIdOnActor (ae_id doc) uuid (fst r1) in
  snd r2 = Ret (Some doc) ∧ actors (fst r2) = actors w.
Proof.
  intros Ha Hfresh r1 Hdoc Hp r2. subst r1 r2.
  destruct (addActiveEffectOnActor_result w uuid a data Ha) as [d Hr].
  rewrite Hr in *. clear Hr.
  destruct (permits w (CreateEmbedded uuid d)); simpl in Hdoc;
    [|discriminate Hdoc].
  injection Hdoc as <-.
  set (doc := docOfData (mkId (nextId w)) d) in *.
  set (w1 := putEffects uuid (actor_effects a ++ [doc])
               (bumpId (logCall (CreateEmbedded uuid d) w))).
  destruct (remove_last_by_id w1 uuid
              (setEffects a (actor_effects a ++ [doc])) (actor_effects a) doc)
    as [Hret Hactors]; try done.
  - subst w1. simpl. by rewrite lookup_alter_eq, Ha.
  - split; [exact Hret|]. simpl. simpl in Hactors. rewrite Hactors.
    by apply alter_setEffects_back.
Qed.

Lemma find_hasId_map (f : ActiveEffect → ActiveEffect) (id : string)
  (l : list ActiveEffect) :
  (∀ x, ae_id (f x) = ae_id x) →
  List.find (hasId id) (map f l) = f <$> List.find (hasId id) l.
Proof.
  intros Hf. induction l as [|x r IH]; [done|]. simpl.
  unfold hasId at 1 3. rewrite Hf. by case_bool_decide.
Qed.

Lemma setDisabled_back (e : ActiveEffect) (b : bool) :
  setDisabled (d_disabled (ae_data e)) (setDisabled b e) = e.
Proof. by destruct e as [i n [l d o s]]. Qed.

Lemma same_id_same_effect (l : list ActiveEffect) (x e : ActiveEffect) :
  NoDup (ae_id <$> l) → x ∈ l → e ∈ l → ae_id x = ae_id e → x = e.
Proof.
  induction l as [|y r IH]; intros Hnd Hx He Hid; [by apply elem_of_nil in Hx|].
  simpl in Hnd. apply NoDup_cons in Hnd as [Hy Hnd].
  apply elem_of_cons in Hx as [->|Hx]; apply elem_of_cons in He as [->|He].
  - done.
  - exfalso. apply Hy. rewrite Hid. apply list_elem_of_fmap. by exists e.
  - exfalso. apply Hy. rewrite <- Hid. apply list_elem_of_fmap. by exists x.
  - by apply IH.
Qed.

Lemma flip_twice (l : list ActiveEffect) (e : ActiveEffect) :
  NoDup (ae_id <$> l) → e ∈ l →
  map (fun x => if hasId (ae_id e) x
                then setDisabled (d_disabled (ae_data e)) x else x)
    (map (fun x => if hasId (ae_id e) x
                   then setDisabled (negb (d_disabled (ae_data e))) x else x)
       l) = l.
Proof.
  intros Hnd He. rewrite map_map. rewrite <- (map_id l) at 2.
  apply map_ext_in. intros x Hx. apply list_elem_of_In in Hx.
  unfold hasId. destruct (decide (ae_id x = ae_id e)) as [Hid|Hid].
  - rewrite (bool_decide_eq_true_2 _ Hid). simpl.
    rewrite (bool_decide_eq_true_2 _ Hid).
    rewrite (same_id_same_effect l x e Hnd Hx He Hid).
    apply setDisabled_back.
  - rewrite (bool_decide_eq_false_2 _ Hid).
    by rewrite (bool_decide_eq_false_2 _ Hid).
Qed.

Lemma toggleDisabled_result (w : World) (uuid : string) (a : Actor)
  (e : ActiveEffect) (fe fd : bool) :
  actors w !! uuid = Some a →
  permits w (DocUpdate uuid (ae_id e) (negb (d_disabled (ae_data e)))) = true →
  toggleDisabled uuid fe fd e w
  = (putEffects uuid
       (map (fun x => if hasId (ae_id e) x
                      then setDisabled (negb (d_disabled (ae_data e))) x
                      else x) (actor_effects a))
       (logCall (DocUpdate uuid (ae_id e) (negb (d_disabled (ae_data e)))) w),
     Ret true).
Proof.
  intros Ha Hp. unfold toggleDisabled.
  destruct fe, fd, (d_disabled (ae_data e)); simpl in *;
    unfold docUpdate; run; rewrite Hp; simpl;
    by rewrite (effectsOf_actor _ _ _ Ha).
Qed.

(** X19. Toggling the same effect of an actor twice by id, the host
    carrying both updates out, gives every actor back as it was, whatever
    the force flags of the two calls. *)
Theorem toggleEffectFromIdOnActor_twice_restores (w : World)
  (uuid id : string) (a : Actor) (e : ActiveEffect) (fe fd fe' fd' : bool) :
  actors w !! uuid = Some a →
  NoDup (ae_id <$> actor_effects a) →
  List.find (hasId id) (actor_effects a) = Some e →
  (∀ b, permits w (DocUpdate uuid (ae_id e) b) = true) →
  let r1 := toggleEffectFromIdOnActor id uuid false fe fd w in
  let r2 := toggleEffectFromIdOnActor id uuid false fe' fd' (fst r1) in
  snd r1 = Ret true ∧ snd r2 = Ret true ∧ actors (fst r2) = actors w.
Proof.
  intros Ha Hnd He Hp r1 r2.
  pose proof (find_elem_of _ _ _ He) as [Hin _].
  set (d := d_disabled (ae_data e)).
  set (l1 := map (fun x => if hasId (ae_id e) x then setDisabled (negb d) x
                           else x) (actor_effects a)).
  set (w1 := putEffects uuid l1 (logCall (DocUpdate uuid (ae_id e) (negb d)) w)).
  assert (toggleEffectFromIdOnActor id uuid false fe fd w = (w1, Ret true))
    as H1.
  { unfold toggleEffectFromIdOnActor. run. rewrite Ha. simpl. rewrite He.
    simpl. by rewrite (toggleDisabled_result w uuid a). }
  assert (actors w1 !! uuid = Some (setEffects a l1)) as Ha1.
  { subst w1. simpl. by rewrite lookup_alter_eq, Ha. }
  assert (List.find (hasId id) l1 = Some (setDisabled (negb d) e)) as He1.
  { subst l1. rewrite find_hasId_map.
    - rewrite He. simpl. unfold hasId. by rewrite bool_decide_eq_true_2.
    - intros x. by destruct (hasId (ae_id e) x). }
  assert (actors w1 = alter (λ x, setEffects x l1) uuid (actors w)) as Hw1
    by reflexivity.
  assert (permits w1 = permits w) as Hp1 by reflexivity.
  clearbody w1.
  subst r2 r1. rewrite H1. simpl. split; [done|].
  unfold toggleEffectFromIdOnActor. run. rewrite Ha1. simpl. rewrite He1.
  simpl.
  rewrite (toggleDisabled_result w1 uuid (setEffects a l1))
    by (done || (rewrite Hp1; apply Hp)).
  simpl. split; [done|].
  rewrite negb_involutive, Hw1. subst l1 d.
  rewrite (flip_twice (actor_effects a) e Hnd Hin).
  by apply alter_setEffects_back.
Qed.

(** X20. The removal by name of the other copy of the handler is the
    one of effect-handler.ts with the result dropped, on every input. The
    removals by id agree in that way when the actor has an effect with
    the id; with an empty id the other copy returns at once, without
    resolving the actor. *)
Theorem part000_removals_agree (w : World) (uuid : string) :
  (∀ n, Part000.removeEffectOnActor n uuid w
        = HandlerSpec.dropResult (removeEffectOnActor n uuid w))
  ∧ (∀ id a,
       actors w !! uuid = Some a →
       is_Some (List.find (hasId id) (actor_effects a)) →
       Part000.removeEffectFromIdOnActor id uuid w
       = HandlerSpec.dropResult (removeEffectFromIdOnActor id uuid w))
  ∧ (∀ id, truthyS id = false →
           Part000.removeEffectFromIdOnActor id uuid w = (w, Ret tt)).
Proof.
  split; [|split].
  - intros n. unfold Part000.removeEffectOnActor, removeEffectOnActor,
      HandlerSpec.dropResult, deleteEmbeddedDocuments. run.
    destruct (actors w !! uuid) as [a|]; simpl; [|done].
    destruct (List.find (labelIs (localize n)) (actor_effects a)) as [e|];
      [|done].
    by destruct (permits w (DeleteEmbedded uuid [ae_id e])).
  - intros id a Ha [e He].
    unfold Part000.removeEffectFromIdOnActor, removeEffectFromIdOnActor,
      HandlerSpec.dropResult, deleteEmbeddedDocuments. run.
    rewrite Ha. destruct (truthyS id); simpl; [|done].
    rewrite ?Ha. simpl. rewrite He. simpl.
    by destruct (permits w (DeleteEmbedded uuid [ae_id e])).
  - intros id Hid. unfold Part000.removeEffectFromIdOnActor. by rewrite Hid.
Qed.

Lemma existsb_impl {A} (P Q : A → bool) (l : list A) :
  (∀ x, P x = true → Q x = true) →
  existsb P l = true → existsb Q l = true.
Proof.
  intros HPQ. induction l as [|x r IH]; [done|]. simpl.
  rewrite !orb_true_iff. intros [Hx|Hr]; [left; by apply HPQ|right; by apply IH].
Qed.

(** X21. Including the disabled effects never turns a positive answer of
    a test into a negative one: a test that answers [true] with
    [includeDisabled] unset answers [true] with it set, for the tests by
    name and by id, on an actor and on a token. *)
Theorem includeDisabled_only_adds (w : World) (key uuid : string) :
  (hasEffectAppliedOnActor key uuid false w = (w, Ret true) →
   hasEffectAppliedOnActor key uuid true w = (w, Ret true))
  ∧ (hasEffectAppliedFromIdOnActor key uuid false w = (w, Ret true) →
     hasEffectAppliedFromIdOnActor key uuid true w = (w, Ret true))
  ∧ (hasEffectAppliedOnToken key uuid false w = (w, Ret true) →
     hasEffectAppliedOnToken key uuid true w = (w, Ret true))
  ∧ (hasEffectAppliedFromIdOnToken key uuid false w = (w, Ret true) →
     hasEffectAppliedFromIdOnToken key uuid true w = (w, Ret true)).
Proof.
  assert (∀ n l, existsb (appliedTest false n) l = true →
                 existsb (appliedTest true n) l = true) as Hname.
  { intros n l. apply existsb_impl. intros x. unfold appliedTest.
    rewrite andb_true_iff. by intros [? _]. }
  assert (∀ i l, existsb (appliedIdTest false i) l = true →
                 existsb (appliedIdTest true i) l = true) as Hid.
  { intros i l. apply existsb_impl. intros x. unfold appliedIdTest.
    rewrite andb_true_iff. by intros [? _]. }
  repeat split.
  - unfold hasEffectAppliedOnActor. run.
    destruct (actors w !! uuid) as [a|]; simpl; [|done].
    intros H. injection H as H. by rewrite Hname.
  - unfold hasEffectAppliedFromIdOnActor. run.
    intros H. injection H as H. by rewrite Hid.
  - unfold hasEffectAppliedOnToken, tokenActorEffects. run.
    destruct (tokens w !! uuid) as [t|]; simpl; [|done].
    destruct (token_actor t) as [k|]; simpl; [|done].
    destruct (actors w !! k) as [a|]; simpl; [|done].
    intros H. injection H as H. by rewrite Hname.
  - unfold hasEffectAppliedFromIdOnToken, tokenActorEffects. run.
    destruct (tokens w !! uuid) as [t|]; simpl; [|done].
    intros H. injection H as H. by rewrite Hid.
Qed.

Lemma onlyTouches_refl (keys : list string) (w : World) :
  HandlerSpec.onlyTouches keys w w.
Proof. by repeat split. Qed.

Lemma onlyTouches_step (u : string) (rest : list string) (w w1 w' : World) :
  HandlerSpec.sameElsewhere u w w1 →
  HandlerSpec.onlyTouches rest w1 w' →
  HandlerSpec.onlyTouches (u :: rest) w w'.
Proof.
  intros (Hother & Htok & Hself) (Hother' & Htok' & Hnames').
  split; [|split].
  - intros k Hk. apply not_elem_of_cons in Hk as [Hku Hkr].
    rewrite Hother' by done. by apply Hother.
  - by rewrite Htok'.
  - intros k. rewrite Hnames'. destruct (decide (k = u)) as [->|Hne].
    + exact Hself.
    + by rewrite Hother.
Qed.

(** What one iteration of the loop of [toggleEffect] may do to the
    world, whatever its input. *)
Lemma toggleEffect_step_frame (effectName : string) (overlay : bool)
  (effectData : option JsObj) (uuid : string) (w : World) :
  let r := toggleEffect_step effectName overlay effectData uuid w in
  HandlerSpec.sameElsewhere uuid w (fst r)
  ∧ (calls (fst r) = calls w
     ∨ (∃ ids, calls (fst r) = calls w ++ [DeleteEmbedded uuid ids])
     ∨ (∃ data, calls (fst r) = calls w ++ [CreateEmbedded uuid data])).
Proof.
  intros r. subst r. destruct (actors w !! uuid) as [a|] eqn:Ha.
  - destruct (existsb (appliedTest false effectName) (actor_effects a))
      eqn:Happ.
    + unfold toggleEffect_step.
      rewrite (mbind_ret _ _ w w _ (hasEffectApplied_returns w uuid _ a Ha)).
      rewrite Happ. unfold removeEffect, deleteEmbeddedDocuments. run.
      rewrite Ha. simpl.
      destruct (List.find (labelIs effectName) (actor_effects a)) as [e|];
        simpl.
      * destruct (permits w (DeleteEmbedded uuid [ae_id e])); simpl.
        -- split; [by apply sameElsewhere_putEffects|].
           right; left. by eexists.
        -- split; [apply sameElsewhere_logCall|]. right; left. by eexists.
      * split; [apply sameElsewhere_refl|]. by left.
    + destruct effectData as [d|].
      * rewrite (toggleEffect_step_unfold w uuid effectName a) by done.
        rewrite Happ.
        pose proof (addEffect_outcome w uuid a (Some effectName) d
                      ("Actor." +:+ actor_id a) overlay Ha) as Hr.
        simpl in Hr. unfold mbind, M_bind, bind.
        destruct (HandlerSpec.lookupOnActor (Some effectName)
                    (actor_effects a)).
        -- rewrite Hr. simpl. split; [apply sameElsewhere_refl|]. by left.
        -- destruct Hr as (data & Hcalls & Hsame & _).
           destruct (addEffect (Some effectName) (Some d) uuid
                       ("Actor." +:+ actor_id a) overlay w) as [w1 [x|err]];
             simpl in *; (split; [done|]); right; right; by eexists.
      * rewrite (toggleEffect_step_without_data w uuid a) by done. simpl.
        split; [apply sameElsewhere_refl|]. by left.
  - unfold toggleEffect_step, hasEffectApplied. run. rewrite Ha. simpl.
    split; [apply sameElsewhere_refl|]. by left.
Qed.

Lemma forOf_toggle_frame (effectName : string) (overlay : bool)
  (effectData : option JsObj) (uuids : list string) (w : World) :
  let w' :=
    fst (forOf (toggleEffect_step effectName overlay effectData) uuids w) in
  HandlerSpec.onlyTouches uuids w w'
  ∧ ∃ cs, calls w' = calls w ++ cs
          ∧ (List.length cs ≤ List.length uuids)%nat
          ∧ ∀ c, c ∈ cs →
                 match c with
                 | DeleteEmbedded k _ | CreateEmbedded k _ => k ∈ uuids
                 | _ => False
                 end.
Proof.
  revert w. induction uuids as [|u rest IH]; intros w; simpl.
  - split; [apply onlyTouches_refl|]. exists []. rewrite app_nil_r.
    split; [done|]. split; [done|]. intros c Hc. by apply elem_of_nil in Hc.
  - pose proof (toggleEffect_step_frame effectName overlay effectData u w)
      as [Hsame Hcalls]. simpl in Hsame, Hcalls.
    unfold mbind, M_bind, bind.
    destruct (toggleEffect_step effectName overlay effectData u w)
      as [w1 [[]|err]]; simpl in *.
    + destruct (IH w1) as (Htouch & cs & Hcs & Hlen & Hall).
      split; [by apply (onlyTouches_step u rest w w1)|].
      destruct Hcalls as [Hc|[[ids Hc]|[data Hc]]].
      * exists cs. rewrite Hcs, Hc. split; [done|]. split; [lia|].
        intros c Hin. specialize (Hall c Hin).
        destruct c; try done; apply elem_of_cons; by right.
      * exists (DeleteEmbedded u ids :: cs). rewrite Hcs, Hc, <- app_assoc.
        split; [done|]. split; [simpl; lia|].
        intros c Hin. apply elem_of_cons in Hin as [->|Hin].
        -- apply elem_of_cons. by left.
        -- specialize (Hall c Hin).
           destruct c; try done; apply elem_of_cons; by right.
      * exists (CreateEmbedded u data :: cs). rewrite Hcs, Hc, <- app_assoc.
        split; [done|]. split; [simpl; lia|].
        intros c Hin. apply elem_of_cons in Hin as [->|Hin].
        -- apply elem_of_cons. by left.
        -- specialize (Hall c Hin).
           destruct c; try done; apply elem_of_cons; by right.
    + split; [apply (onlyTouches_step u rest w w1); [done|]
              ; apply onlyTouches_refl|].
      destruct Hcalls as [Hc|[[ids Hc]|[data Hc]]].
      * exists []. rewrite app_nil_r. split; [done|]. split; [simpl; lia|].
        intros c Hin. by apply elem_of_nil in Hin.
      * exists [DeleteEmbedded u ids]. split; [done|]. split; [simpl; lia|].
        intros c Hin. apply list_elem_of_singleton in Hin as ->.
        apply elem_of_cons. by left.
      * exists [CreateEmbedded u data]. split; [done|]. split; [simpl; lia|].
        intros c Hin. apply list_elem_of_singleton in Hin as ->.
        apply elem_of_cons. by left.
Qed.

(** X22. Whatever its arguments and whether it returns or fails,
    [toggleEffect] leaves the tokens alone, leaves every actor outside
    the given uuids alone, changes at most the effects of the others,
    and makes at most one host call for each uuid, a deletion or a
    creation on the actor of that uuid. *)
Theorem toggleEffect_frame (effectName : string) (overlay : bool)
  (uuids : list string) (effectData : option JsObj) (w : World) :
  let w' := fst (toggleEffect effectName overlay uuids effectData w) in
  HandlerSpec.onlyTouches uuids w w'
  ∧ ∃ cs, calls w' = calls w ++ cs
          ∧ (List.length cs ≤ List.length uuids)%nat
          ∧ ∀ c, c ∈ cs →
                 match c with
                 | DeleteEmbedded k _ | CreateEmbedded k _ => k ∈ uuids
                 | _ => False
                 end.
Proof.
  intros w'. subst w'.
  pose proof (forOf_toggle_frame effectName overlay effectData uuids w) as H.
  simpl in H. unfold toggleEffect, mbind, M_bind, bind.
  by destruct (forOf (toggleEffect_step effectName overlay effectData) uuids w)
    as [w1 [[]|err]].
Qed.

End Facts.

(** *** The properties on sample worlds *)

(** X7 on a uuid that names no actor of the sample world. *)
Lemma unresolved_actor_uuid_witness :
  let w := Samples.world [] in
  removeEffect "Blinded" "Actor.zz" w = (w, Throw TypeError)
  ∧ hasEffectAppliedFromIdOnActor "e1" "Actor.zz" true w = (w, Ret false).
Proof.
  intros w.
  destruct (unresolved_actor_uuid (helpers := modelHelpers) w "Actor.zz"
              eq_refl) as (Hid & _ & _ & _ & Hrem & _).
  split; [apply Hrem|apply Hid].
Defined.

(** X8 on a uuid that names no token of the sample world. *)
Lemma unresolved_token_uuid_witness :
  let w := Samples.world [] in
  findEffectByNameOnToken (helpers := modelHelpers) "" "Scene.s1.Token.zz" w
  = (w, Throw TypeError)
  ∧ removeEffectFromIdOnToken "" "Scene.s1.Token.zz" w = (w, Ret None).
Proof.
  intros w.
  destruct (unresolved_token_uuid (helpers := modelHelpers) w
              "Scene.s1.Token.zz") as [Hno _].
  destruct (Hno eq_refl) as (_ & _ & Hfind & _ & Hrem & _).
  split; [apply Hfind|exact (Hrem "")].
Defined.

(** X9 on the token of the sample world. *)
Lemma token_methods_act_on_token_actor_witness :
  let w := Samples.world [Samples.labelled "e1" "Blinded" false] in
  removeEffectOnToken (helpers := modelHelpers) "Blinded"
    "Scene.s1.Token.t1" w
  = removeEffectOnActor (helpers := modelHelpers) "Blinded" "Actor.a1" w.
Proof.
  intros w.
  destruct (token_methods_act_on_token_actor (helpers := modelHelpers) w
              "Scene.s1.Token.t1" "Actor.a1"
              (mkToken "t1" "Aria" (Some "Actor.a1") (Some "s1"))
              (Samples.aria [Samples.labelled "e1" "Blinded" false])
              eq_refl eq_refl eq_refl) as (_ & _ & Hrem & _).
  apply Hrem.
Defined.

(** X10 on an id that the one effect of the sample actor does not
    carry. *)
Lemma unknown_effect_id_witness :
  let w := Samples.world [Samples.labelled "e1" "Blinded" false] in
  toggleEffectFromIdOnToken "zz" "Scene.s1.Token.t1" false false false w
  = (w, Ret None)
  ∧ toggleEffectFromIdOnActor "zz" "Actor.a1" false false false w
    = (w, Throw TypeError).
Proof.
  intros w.
  destruct (unknown_effect_id (helpers := modelHelpers) w
              "Scene.s1.Token.t1" "Actor.a1" "zz"
              (mkToken "t1" "Aria" (Some "Actor.a1") (Some "s1"))
              (Samples.aria [Samples.labelled "e1" "Blinded" false])
              eq_refl eq_refl eq_refl)
    as (_ & _ & _ & Htoken & Hactor & _).
  - intros x Hx. simpl in Hx.
    repeat (apply elem_of_cons in Hx as [->|Hx]; [reflexivity|]).
    by apply elem_of_nil in Hx.
  - split; [apply Htoken|apply Hactor].
Defined.

(** X11 on the sample actor. *)
Lemma removeEffectFromIdOnActor_then_not_applied_witness :
  let w := Samples.world [Samples.labelled "e1" "Blinded" false] in
  let w' := fst (removeEffectFromIdOnActor "e1" "Actor.a1" w) in
  hasEffectAppliedFromIdOnActor "e1" "Actor.a1" true w' = (w', Ret false).
Proof.
  intros w w'.
  apply (removeEffectFromIdOnActor_then_not_applied w "Actor.a1" "e1"
           (Samples.aria [Samples.labelled "e1" "Blinded" false])
           (Samples.labelled "e1" "Blinded" false)
           eq_refl eq_refl eq_refl eq_refl true).
Defined.

(** X12 on the sample actor, who has an effect labelled "Blinded"
    already. *)
Lemma addActiveEffectOnActor_always_creates_witness :
  let w := Samples.world [Samples.labelled "e1" "Blinded" false] in
  HandlerSpec.creates w "Actor.a1"
    [("label", VString "Blinded"); ("origin", VString "Actor.a1")]
    (addActiveEffectOnActor "Actor.a1" (Some [("label", VString "Blinded")])
       w).
Proof.
  intros w.
  exact (addActiveEffectOnActor_always_creates w "Actor.a1"
           (Samples.aria [Samples.labelled "e1" "Blinded" false])
           [("label", VString "Blinded")] eq_refl).
Defined.

(** X13 on the sample token: of the three ids requested, two are
    carried. *)
Lemma removeEffectFromIdOnTokenMultiple_one_call_witness :
  let e1 := Samples.labelled "e1" "Blinded" false in
  let e2 := Samples.labelled "e2" "Prone" false in
  let w := Samples.world [e1; e2] in
  let r := removeEffectFromIdOnTokenMultiple (Some ["e2"; "zz"; "e1"])
             "Scene.s1.Token.t1" w in
  calls (fst r) = [DeleteEmbedded "Actor.a1" ["e2"; "e1"]]
  ∧ effectsOf "Actor.a1" (fst r) = []
  ∧ snd r = Ret (Some e2).
Proof.
  intros e1 e2 w r.
  exact (removeEffectFromIdOnTokenMultiple_one_call w "Scene.s1.Token.t1"
           "Actor.a1" (mkToken "t1" "Aria" (Some "Actor.a1") (Some "s1"))
           (Samples.aria [e1; e2]) ["e2"; "zz"; "e1"]
           eq_refl eq_refl eq_refl).
Defined.

(** X14 on the sample token, by id. *)
Lemma update_returns_true_whatever_the_host_witness :
  let e := Samples.labelled "e1" "Blinded" false in
  let w := Samples.world [e] in
  HandlerSpec.sendsUpdate w "Actor.a1" e
    (updateActiveEffectFromIdOnToken "e1" "Scene.s1.Token.t1" "" false
       (Some [("disabled", VBool true)]) w).
Proof.
  intros e w.
  destruct (update_returns_true_whatever_the_host (helpers := modelHelpers)
              w "Scene.s1.Token.t1" "Actor.a1"
              (mkToken "t1" "Aria" (Some "Actor.a1") (Some "s1"))
              (Samples.aria [e]) "" false [("disabled", VBool true)]
              eq_refl eq_refl eq_refl) as [_ Hid].
  exact (proj2 (Hid "e1")).
Defined.

(** X16 on the sample actor with an enabled "Blinded", listed twice:
    the first visit removes the effect, the second fails. *)
Lemma toggleEffect_without_data_throws_witness :
  let w := Samples.world [Samples.labelled "e1" "Blinded" false] in
  let r := toggleEffect (helpers := modelHelpers) "Blinded" false
             ["Actor.a1"; "Actor.a1"; "Actor.zz"] None w in
  snd r = Throw TypeError
  ∧ calls (fst r) = [DeleteEmbedded "Actor.a1" ["e1"]]
  ∧ effectsOf "Actor.a1" (fst r) = [].
Proof.
  intros w r.
  pose proof (toggleEffect_without_data_throws (helpers := modelHelpers) w
                ["Actor.a1"] ["Actor.zz"] "Actor.a1" (Samples.aria [])
                "Blinded" false eq_refl eq_refl eq_refl) as H.
  simpl in H. subst r. rewrite H. by repeat split.
Defined.

(** X17 on the sample actor without effects: the second addition of
    "Blinded" does nothing. *)
Lemma addEffectOnActor_again_is_noop_witness :
  let w := Samples.world [] in
  let r := addEffectOnActor (helpers := modelHelpers) "Blinded" "Actor.a1"
             "" false (Some (Samples.effectNamed "Blinded")) w in
  addEffectOnActor (helpers := modelHelpers) "Blinded" "Actor.a1" "" false
    (Some (Samples.effectNamed "Blinded")) (fst r)
  = (fst r, Ret None).
Proof.
  intros w r.
  exact (addEffectOnActor_again_is_noop (helpers := modelHelpers) w
           "Actor.a1" (Samples.aria []) "Blinded" "" false
           (Samples.effectNamed "Blinded")
           (mkEffect "ae0" None
              (mkData (Some "Blinded") false (Some "Item.i1") None))
           eq_refl eq_refl eq_refl eq_refl
           "" false (Samples.effectNamed "Blinded")).
Defined.

(** X18 on the sample actor. *)
Lemma removeEffectFromIdOnActor_undoes_addActiveEffectOnActor_witness :
  let w := Samples.world [Samples.labelled "e1" "Blinded" false] in
  let r1 := addActiveEffectOnActor "Actor.a1"
              (Some [("label", VString "Prone")]) w in
  actors (fst (removeEffectFromIdOnActor "ae0" "Actor.a1" (fst r1)))
  = actors w.
Proof.
  intros w r1.
  refine (proj2 (removeEffectFromIdOnActor_undoes_addActiveEffectOnActor w
                   "Actor.a1"
                   (Samples.aria [Samples.labelled "e1" "Blinded" false])
                   [("label", VString "Prone")]
                   (mkEffect "ae0" None
                      (mkData (Some "Prone") false (Some "Actor.a1") None))
                   eq_refl _ eq_refl eq_refl)).
  intros x Hx. simpl in Hx.
  repeat (apply elem_of_cons in Hx as [->|Hx]; [discriminate|]).
  by apply elem_of_nil in Hx.
Defined.

(** X19 on the sample actor. *)
Lemma toggleEffectFromIdOnActor_twice_restores_witness :
  let w := Samples.world [Samples.labelled "e1" "Blinded" false] in
  let r1 := toggleEffectFromIdOnActor "e1" "Actor.a1" false true false w in
  let r2 := toggleEffectFromIdOnActor "e1" "Actor.a1" false false false
              (fst r1) in
  snd r1 = Ret true ∧ snd r2 = Ret true ∧ actors (fst r2) = actors w.
Proof.
  intros w r1 r2.
  apply (toggleEffectFromIdOnActor_twice_restores w "Actor.a1" "e1"
           (Samples.aria [Samples.labelled "e1" "Blinded" false])
           (Samples.labelled "e1" "Blinded" false) true false false false
           eq_refl).
  - by compute_done.
  - reflexivity.
  - intros b. reflexivity.
Defined.

(** X20 on the sample actor. *)
Lemma part000_removals_agree_witness :
  let w := Samples.world [Samples.labelled "e1" "Blinded" false] in
  Part000.removeEffectFromIdOnActor "e1" "Actor.a1" w
  = HandlerSpec.dropResult (removeEffectFromIdOnActor "e1" "Actor.a1" w)
  ∧ Part000.removeEffectFromIdOnActor "" "Actor.zz" w = (w, Ret tt).
Proof.
  intros w.
  destruct (part000_removals_agree (helpers := modelHelpers) w "Actor.a1")
    as (_ & Hid & _).
  destruct (part000_removals_agree (helpers := modelHelpers) w "Actor.zz")
    as (_ & _ & Hempty).
  split.
  - apply (Hid "e1" (Samples.aria [Samples.labelled "e1" "Blinded" false])
             eq_refl).
    eexists. reflexivity.
  - apply Hempty. reflexivity.
Defined.

(** X21 on the sample actor. *)
Lemma includeDisabled_only_adds_witness :
  let w := Samples.world [Samples.labelled "e1" "Blinded" false] in
  hasEffectAppliedOnActor (helpers := modelHelpers) "Blinded" "Actor.a1" true
    w = (w, Ret true).
Proof.
  intros w.
  destruct (includeDisabled_only_adds (helpers := modelHelpers) w "Blinded"
              "Actor.a1") as (Hname & _).
  apply Hname. reflexivity.
Defined.

End HandlerMoreFacts.

(** ** The positional-array variants, continued *)

Module LegacyMoreFacts.
Import Js Handler Legacy.

Lemma destructure_drops_extra (n : nat) (args extra : list JsVal) :
  (n ≤ List.length args)%nat →
  destructure n (args ++ extra) = destructure n args.
Proof.
  intros Hn. unfold destructure. apply map_ext_in. intros i Hi.
  apply in_seq in Hi. unfold item. apply app_nth1. lia.
Qed.

Lemma destructure_missing_undefined (n : nat) (args : list JsVal) :
  destructure n (args ++ [VUndefined]) = destructure n args.
Proof.
  unfold destructure. apply map_ext. intros i. unfold item.
  destruct (decide (i < List.length args)%nat) as [Hi|Hi].
  - by apply app_nth1.
  - rewrite app_nth2 by lia. rewrite (nth_overflow args) by lia.
    destruct (i - List.length args)%nat as [|[|j]]; reflexivity.
Qed.

(** X23. A positional-array variant never throws its guard's error. But
    for [updateActiveEffectFromNameOnTokenArr] of the handler, every
    variant of the handler and of the API object calls the method it is
    named after, and the two objects destructure the same number of
    arguments for the same method. A variant drops the arguments beyond
    that number, and passing [undefined] for a missing last argument is
    the same as leaving it out. *)
Theorem arr_variants_forward {R : Type} (this : Method → list JsVal → M R)
  (args extra : list JsVal) :
  (∀ m, m ≠ m_updateActiveEffectFromNameOnToken →
        runArr this (handlerArr m) args
        = this m (destructure (arity (handlerArr m)) args))
  ∧ (∀ m b, apiArr m = Some b →
            runArr this b args = this m (destructure (arity b) args)
            ∧ arity b = arity (handlerArr m))
  ∧ (∀ b, (arity b ≤ List.length args)%nat →
          runArr this b (args ++ extra) = runArr this b args)
  ∧ (∀ b, runArr this b (args ++ [VUndefined]) = runArr this b args).
Proof.
  assert (∀ b l, runArr this b l = this (target b) (destructure (arity b) l))
    as Hrun.
  { intros b l. unfold runArr. simpl. by rewrite andb_false_r. }
  split; [|split; [|split]].
  - intros m Hm. rewrite Hrun. by destruct m.
  - intros m b Hb. rewrite Hrun.
    destruct m; simpl in Hb; simplify_eq; done.
  - intros b Hb. by rewrite !Hrun, destructure_drops_extra.
  - intros b. by rewrite !Hrun, destructure_missing_undefined.
Qed.

(** X23 on [removeEffectArr] of the handler, called with three
    arguments. *)
Lemma arr_variants_forward_witness :
  let this :=
    handlerThis (helpers := modelHelpers) (fun _ _ => mret VUndefined) in
  runArr this (handlerArr m_removeEffect)
    [VString "Blinded"; VString "Actor.a1"; VBool true]
  = this m_removeEffect [VString "Blinded"; VString "Actor.a1"].
Proof.
  intros this.
  destruct (arr_variants_forward this [VString "Blinded"; VString "Actor.a1"]
              [VBool true]) as (Hhandler & _ & Hextra & _).
  etrans; [exact (Hextra (handlerArr m_removeEffect) (le_n 2))|].
  apply (Hhandler m_removeEffect). discriminate.
Defined.

End LegacyMoreFacts.
